(** * Polar-alignment solver of KStars (class [PolarAlign], polaralign.cpp,
      the part of src/kstars/skymap.cpp that follows the sky map)

    A shallow embedding of the solver's session state, its error
    computation, the axis fit and the two grid searches, followed by the
    properties of the specification that were checked against it.

    Conventions of the embedding.
    - A C++ [double] is a real number of [R]; rounding, infinities and NaN
      are outside the model.  Comparisons are the decidable comparisons of
      the reals ([Rlt_dec] and the like).
    - A function that returns [bool] and writes through out-parameters
      returns an [option] of its outputs: [None] is [return false].  A member
      function that assigns to members returns its [bool] together with the
      members after the call.
    - What C++ leaves undefined (indexing a vector past its size,
      dereferencing a null pointer) and a loop that never ends are the
      [Faults] outcomes of the [outcome] monad; a [return] of any value is
      [Returns].
    - The namespace [Rotations] (rotations.h, rotations.cpp) and the classes
      [SkyPoint], [GeoLocation], [KStarsDateTime] and [FITSData] are not part
      of the sources at hand.  The solver is written against them as the
      interfaces [Rotations] and [Sky]; every general theorem holds for all
      their implementations. *)

From Stdlib Require Import Reals Lra Lia List ZArith Bool.
From Equations Require Import Equations.
Import ListNotations.
Open Scope R_scope.

(** ** Plain values *)

(** [Rotations::V3]: a point of space with accessors [x()], [y()], [z()]. *)
Module V3.
Record t : Type := mk { x : R; y : R; z : R }.
End V3.

(** Qt's [QPointF], used by the solver both for pixels and for
    (azimuth, altitude) pairs in degrees. *)
Module QPointF.
Record t : Type := mk { x : R; y : R }.
End QPointF.

(** The default-constructed [QPointF] is the origin. *)
Definition QPointF_default : QPointF.t := QPointF.mk 0 0.

(** [hypot] of <cmath>. *)
Definition hypot (a b : R) : R := sqrt (a * a + b * b).

(** [fabs] of <cmath>. *)
Definition fabs (a : R) : R := Rabs a.

Definition Rltb (a b : R) : bool := if Rlt_dec a b then true else false.
Definition Rgtb (a b : R) : bool := if Rgt_dec a b then true else false.

(** ** Outcomes of a call *)

Inductive fault : Type :=
| NullDereference
| IndexOutOfRange
| Diverges.

Inductive outcome (A : Type) : Type :=
| Returns (a : A)
| Faults (f : fault).
Arguments Returns {A} a.
Arguments Faults {A} f.

Definition bind {A B : Type} (m : outcome A) (k : A -> outcome B) : outcome B :=
  match m with
  | Returns a => k a
  | Faults f => Faults f
  end.

Notation "x <- m ;; k" := (bind m (fun x => k))
  (at level 61, m at next level, right associativity).
Notation "' p <- m ;; k" := (bind m (fun p => k))
  (at level 61, p pattern, m at next level, right associativity).

(** [v[i]] on a [QVector]: undefined past the end. *)
Definition at_index {A : Type} (v : list A) (i : nat) : outcome A :=
  match nth_error v i with
  | Some a => Returns a
  | None => Faults IndexOutOfRange
  end.

(** [*p] on a pointer that may be null. *)
Definition deref {A : Type} (p : option A) : outcome A :=
  match p with
  | Some a => Returns a
  | None => Faults NullDereference
  end.

(** ** Loops over a [double] counter *)

Lemma up_minus_one (r : R) : up (r - 1) = (up r - 1)%Z.
Proof.
  symmetry. apply tech_up; rewrite minus_IZR; pose proof (archimed r); lra.
Qed.

Lemma up_pos (r : R) : 0 <= r -> (0 < up r)%Z.
Proof.
  intros Hr. apply lt_IZR. pose proof (archimed r). lra.
Qed.

Lemma up_nonpos (r : R) : r < 0 -> (up r <= 0)%Z.
Proof.
  intros Hr. assert (up r < 1)%Z; [| lia].
  apply lt_IZR. pose proof (archimed r). lra.
Qed.

(** Number of counter values [v], [v + inc], ... that are at most [hi]. *)
Definition count_le (hi inc v : R) : nat := Z.to_nat (up ((hi - v) / inc)).

Lemma count_le_step (hi inc v : R) :
  0 < inc -> v <= hi -> count_le hi inc v = S (count_le hi inc (v + inc)).
Proof.
  intros Hinc Hv. unfold count_le.
  replace ((hi - (v + inc)) / inc) with ((hi - v) / inc - 1) by (field; lra).
  rewrite up_minus_one.
  assert (0 <= (hi - v) / inc).
  { apply Rmult_le_pos; [lra | left; apply Rinv_0_lt_compat; exact Hinc]. }
  pose proof (up_pos _ H). lia.
Qed.

Lemma count_le_done (hi inc v : R) : 0 < inc -> hi < v -> count_le hi inc v = 0%nat.
Proof.
  intros Hinc Hv. unfold count_le.
  assert ((hi - v) / inc < 0).
  { apply Ropp_lt_cancel. rewrite Ropp_0.
    replace (- ((hi - v) / inc)) with ((v - hi) * / inc) by (field; lra).
    apply Rmult_lt_0_compat; [lra | apply Rinv_0_lt_compat; exact Hinc]. }
  pose proof (up_nonpos _ H). lia.
Qed.

Lemma up_plus_one (r : R) : up (r + 1) = (up r + 1)%Z.
Proof.
  symmetry. apply tech_up; rewrite plus_IZR; pose proof (archimed r); lra.
Qed.

(** Number of counter values [v], [v + inc], ... that are below [hi]. *)
Definition count_lt (hi inc v : R) : nat := Z.to_nat (1 - up ((v - hi) / inc)).

Lemma count_lt_step (hi inc v : R) :
  0 < inc -> v < hi -> count_lt hi inc v = S (count_lt hi inc (v + inc)).
Proof.
  intros Hinc Hv. unfold count_lt.
  replace ((v + inc - hi) / inc) with ((v - hi) / inc + 1) by (field; lra).
  rewrite up_plus_one.
  assert ((v - hi) / inc < 0).
  { apply Ropp_lt_cancel. rewrite Ropp_0.
    replace (- ((v - hi) / inc)) with ((hi - v) * / inc) by (field; lra).
    apply Rmult_lt_0_compat; [lra | apply Rinv_0_lt_compat; exact Hinc]. }
  pose proof (up_nonpos _ H). lia.
Qed.

Lemma count_lt_done (hi inc v : R) : 0 < inc -> hi <= v -> count_lt hi inc v = 0%nat.
Proof.
  intros Hinc Hv. unfold count_lt.
  assert (0 <= (v - hi) / inc).
  { apply Rmult_le_pos; [lra | left; apply Rinv_0_lt_compat; exact Hinc]. }
  pose proof (up_pos _ H). lia.
Qed.

(** [for (double v = start; v <= hi; v += inc) s = body(v, s);]
    With a positive increment the loop ends.  With any other increment the
    counter never passes [hi] once the test held: the loop does not end, which
    the model reports after the first run of the body. *)
Equations? for_le {St : Type} (hi inc : R) (body : R -> St -> outcome St)
    (v : R) (s : St) : outcome St by wf (count_le hi inc v) lt :=
  for_le hi inc body v s with Rle_dec v hi := {
    | right _ => Returns s
    | left _ with Rlt_dec 0 inc := {
        | right _ => Faults Diverges
        | left _ with body v s := {
            | Faults f => Faults f
            | Returns s' => for_le hi inc body (v + inc) s' } } }.
Proof.
  rewrite (count_le_step hi inc v) by assumption. lia.
Qed.

(** [for (double v = start; v < hi; v += inc) s = body(v, s);] *)
Equations? for_lt {St : Type} (hi inc : R) (body : R -> St -> outcome St)
    (v : R) (s : St) : outcome St by wf (count_lt hi inc v) lt :=
  for_lt hi inc body v s with Rlt_dec v hi := {
    | right _ => Returns s
    | left _ with Rlt_dec 0 inc := {
        | right _ => Faults Diverges
        | left _ with body v s := {
            | Faults f => Faults f
            | Returns s' => for_lt hi inc body (v + inc) s' } } }.
Proof.
  rewrite (count_lt_step hi inc v) by assumption. lia.
Qed.

(** [while (a > 180.0) a -= 360;] *)
Equations? wrapAbove180 (a : R) : R by wf (count_le a 360 180) lt :=
  wrapAbove180 a with Rgt_dec a 180 := {
    | left _ => wrapAbove180 (a - 360)
    | right _ => a }.
Proof.
  unfold count_le.
  replace ((a - 360 - 180) / 360) with ((a - 180) / 360 - 1) by (field; lra).
  rewrite up_minus_one.
  assert (0 <= (a - 180) / 360) by lra.
  pose proof (up_pos _ H). lia.
Qed.

(** ** Interfaces of the code outside the solver *)

(** The functions of namespace [Rotations] that the solver calls, and
    [V3::length].  Angles are in degrees. *)
Class Rotations : Type := {
  azAlt2xyz : QPointF.t -> V3.t;
  xyz2azAlt : V3.t -> QPointF.t;
  rotateAroundY : V3.t -> R -> V3.t;
  rotateAroundZ : V3.t -> R -> V3.t;
  rotateAroundAxis : V3.t -> V3.t -> R -> V3.t;
  getAngle : V3.t -> V3.t -> R;
  getAxis : V3.t -> V3.t -> V3.t -> V3.t;
  rotateRaAxis : QPointF.t -> QPointF.t -> QPointF.t;
  V3_length : V3.t -> R
}.

(** Sky coordinates, clock, site and solved images.
    - [lat g] is [g->lat()], a pointer to the latitude, read in degrees;
    - [az p], [alt p] are [p.az().Degrees()], [p.alt().Degrees()];
    - [secsTo t u] is [t.secsTo(u)], a whole number of seconds;
    - [apparentCoord c t] is [c.apparentCoord(J2000, t.djd())];
    - [timeTransformed g c t] is [SkyPoint::timeTransformed(&c, t, g, 0)];
    - [horizontalToJ2000 g t p] is the point obtained from [setAz], [setAlt],
      [HorizontalToEquatorial] at the local sidereal time of [t] and
      [deprecess], as in [refreshSolution];
    - [horizontalToCatalogue g t a h] is the same with [catalogueCoord], as
      in [findAzAlt];
    - [pixelToWCS] and [wcsToPixel] are the plate solution of an image, and
      fail outside of it. *)
Class Sky : Type := {
  GeoLocation : Type;
  KStarsDateTime : Type;
  SkyPoint : Type;
  FITSData : Type;
  lat : GeoLocation -> option R;
  az : SkyPoint -> R;
  alt : SkyPoint -> R;
  secsTo : KStarsDateTime -> KStarsDateTime -> Z;
  apparentCoord : SkyPoint -> KStarsDateTime -> SkyPoint;
  timeTransformed : option GeoLocation -> SkyPoint -> KStarsDateTime -> SkyPoint;
  horizontalToJ2000 : GeoLocation -> KStarsDateTime -> QPointF.t -> SkyPoint;
  horizontalToCatalogue : GeoLocation -> KStarsDateTime -> R -> R -> SkyPoint;
  getDateTime : FITSData -> KStarsDateTime;
  width : FITSData -> Z;
  height : FITSData -> Z;
  pixelToWCS : FITSData -> QPointF.t -> option SkyPoint;
  wcsToPixel : FITSData -> SkyPoint -> option QPointF.t
}.

(** ** The solver *)

Section PolarAlign.

Context {rot : Rotations} {sky : Sky}.

(** The members of class [PolarAlign]. *)
Record PolarAlign : Type := mkPolarAlign {
  geoLocation : option GeoLocation;
  points : list SkyPoint;
  times : list KStarsDateTime;
  azimuthCenter : R;
  altitudeCenter : R;
  maxPixelSearchRange : R
}.

Definition with_samples (pa : PolarAlign) (ps : list SkyPoint)
    (ts : list KStarsDateTime) : PolarAlign :=
  mkPolarAlign (geoLocation pa) ps ts (azimuthCenter pa) (altitudeCenter pa)
    (maxPixelSearchRange pa).

Definition with_axis (pa : PolarAlign) (azC altC : R) : PolarAlign :=
  mkPolarAlign (geoLocation pa) (points pa) (times pa) azC altC
    (maxPixelSearchRange pa).

Definition with_range (pa : PolarAlign) (d : R) : PolarAlign :=
  mkPolarAlign (geoLocation pa) (points pa) (times pa) (azimuthCenter pa)
    (altitudeCenter pa) d.

(** [PolarAlign::PolarAlign(geo)].  [instance] is [KStarsData::Instance()]
    together with its [geo()]; the three numbers are the initial values that
    the class declaration gives to the members that the constructor does not
    assign. *)
Definition PolarAlign_new (geo : option GeoLocation)
    (instance : option (option GeoLocation))
    (azimuthCenter0 altitudeCenter0 maxPixelSearchRange0 : R) : PolarAlign :=
  let geoLocation :=
    match geo, instance with
    | None, Some instanceGeo => instanceGeo
    | _, _ => geo
    end in
  mkPolarAlign geoLocation [] [] azimuthCenter0 altitudeCenter0 maxPixelSearchRange0.

(** [geoLocation->lat()->Degrees()] *)
Definition latitudeDegrees (pa : PolarAlign) : outcome R :=
  g <- deref (geoLocation pa) ;; deref (lat g).

Definition northernHemisphere (pa : PolarAlign) : bool :=
  match geoLocation pa with
  | None => true
  | Some g =>
      match lat g with
      | None => true
      | Some d => Rgtb d 0
      end
  end.

Definition reset (pa : PolarAlign) : PolarAlign := with_samples pa [] [].

Definition prepareAzAlt (pa : PolarAlign) (image : option FITSData)
    (pixel : QPointF.t) : option SkyPoint :=
  match image with
  | None => None
  | Some img =>
      match pixelToWCS img pixel with
      | None => None
      | Some coords =>
          let coords := apparentCoord coords (getDateTime img) in
          Some (timeTransformed (geoLocation pa) coords (getDateTime img))
      end
  end.

Definition addPoint (pa : PolarAlign) (image : option FITSData)
    : outcome (bool * PolarAlign) :=
  img <- deref image ;;
  let time := getDateTime img in
  let center := QPointF.mk (IZR (Z.quot (width img) 2)) (IZR (Z.quot (height img) 2)) in
  match prepareAzAlt pa image center with
  | None => Returns (false, pa)
  | Some coords =>
      if (2 <? length (points pa))%nat then Returns (false, pa)
      else Returns (true, with_samples pa (points pa ++ [coords]) (times pa ++ [time]))
  end.

(** *** The refresh search *)

Definition getResidual (from : V3.t) (yAngle zAngle : R) (goal : V3.t) : R :=
  let point1 := rotateAroundY from yAngle in
  let point2 := rotateAroundZ point1 zAngle in
  fabs (getAngle point2 goal).

(** The values [getBestRotation] returns and writes: the smallest distance
    found and the pair of angles it was found at. *)
Record Rotation : Type := mkRotation {
  minDist : R;
  bestAngleZ : R;
  bestAngleY : R
}.

Definition tryRotation (from goal : V3.t) (thetaY thetaZ : R) (best : Rotation)
    : Rotation :=
  let dist := getResidual from thetaY thetaZ goal in
  if Rlt_dec dist (minDist best) then mkRotation dist thetaZ thetaY else best.

Definition getBestRotation (from goal : V3.t) (zStart yStart : R)
    (range increment : R) : outcome Rotation :=
  let range := fabs range in
  for_le (yStart + range) increment
    (fun thetaY best =>
       for_le (zStart + range) increment
         (fun thetaZ best => Returns (tryRotation from goal thetaY thetaZ best))
         (zStart - range) best)
    (yStart - range) (mkRotation 1e8 0 0).

Definition pass1Resolution : R := 1.0 / 60.0.
Definition pass2Resolution : R := 5 / 3600.0.
Definition pass2Range : R := 4.0 / 60.0.

Definition pass1Range (from goal : V3.t) : R :=
  let rotationAngle := getAngle from goal in
  Rmax 1.0 (Rmin 10.0 (2.5 * fabs rotationAngle)).

Definition getRotationAngles (from goal : V3.t) : outcome Rotation :=
  pass1 <- getBestRotation from goal 0 0 (pass1Range from goal) pass1Resolution ;;
  getBestRotation from goal (bestAngleZ pass1) (bestAngleY pass1)
    pass2Range pass2Resolution.

(** *** Errors of the axis *)

(** Returns the pair (azError, altError). *)
Definition calculateAzAltError (pa : PolarAlign) : outcome (R * R) :=
  latitudeDegrees <- latitudeDegrees pa ;;
  let altError :=
    if northernHemisphere pa then altitudeCenter pa - latitudeDegrees
    else altitudeCenter pa + latitudeDegrees in
  let azError :=
    if northernHemisphere pa then azimuthCenter pa else azimuthCenter pa + 180.0 in
  Returns (wrapAbove180 azError, altError).

(** The outputs of [processRefreshCoords]. *)
Record Refresh : Type := mkRefresh {
  azError : R;
  altError : R;
  azAdjustment : R;
  altAdjustment : R
}.

(** The angle, in degrees, of [p3secs] seconds at the sidereal rate. *)
Definition p3Angle (p3secs : R) : R := (-15.041067 * p3secs) / 3600.0.

Definition processRefreshCoords (pa : PolarAlign) (coords : SkyPoint)
    (time : KStarsDateTime) : outcome (option Refresh) :=
  let c := apparentCoord coords time in
  let point := timeTransformed (geoLocation pa) c time in
  let newPoint := azAlt2xyz (QPointF.mk (az point) (alt point)) in
  time2 <- at_index (times pa) 2 ;;
  let p3secs := IZR (secsTo time2 time) in
  let p3Angle := p3Angle p3secs in
  point2 <- at_index (points pa) 2 ;;
  let p3OrigPoint := azAlt2xyz (QPointF.mk (az point2) (alt point2)) in
  let origAxisPt := azAlt2xyz (QPointF.mk (azimuthCenter pa) (altitudeCenter pa)) in
  let point3 := rotateAroundAxis p3OrigPoint origAxisPt p3Angle in
  found <- getRotationAngles point3 newPoint ;;
  let residual := minDist found in
  let zAdjustment := bestAngleZ found in
  let yAdjustment := bestAngleY found in
  if Rgt_dec residual 0.5 then Returns None
  else
    let origAxisPoint := azAlt2xyz (QPointF.mk (azimuthCenter pa) (altitudeCenter pa)) in
    let tempPoint := rotateAroundY origAxisPoint yAdjustment in
    let newAxisPoint := rotateAroundZ tempPoint zAdjustment in
    let newAxisAzAlt := xyz2azAlt newAxisPoint in
    let newAxisAz := QPointF.x newAxisAzAlt in
    let newAxisAlt := QPointF.y newAxisAzAlt in
    latitudeDegrees <- latitudeDegrees pa ;;
    let altError :=
      if northernHemisphere pa then newAxisAlt - latitudeDegrees
      else newAxisAlt + latitudeDegrees in
    let azError := if northernHemisphere pa then newAxisAz else newAxisAz + 180.0 in
    Returns (Some (mkRefresh (wrapAbove180 azError) altError zAdjustment yAdjustment)).

(** Returns the pair (solution, altOnlySolution). *)
Definition refreshSolution (pa : PolarAlign) : outcome (option (SkyPoint * SkyPoint)) :=
  if negb (length (points pa) =? 3)%nat then Returns None
  else
    '(azError, altError) <- calculateAzAltError pa ;;
    point2 <- at_index (points pa) 2 ;;
    let point3 := azAlt2xyz (QPointF.mk (az point2) (alt point2)) in
    let altSolutionPoint := rotateAroundY point3 altError in
    let solutionPoint := rotateAroundZ altSolutionPoint azError in
    let solutionAzAlt := xyz2azAlt solutionPoint in
    g <- deref (geoLocation pa) ;;
    time2 <- at_index (times pa) 2 ;;
    let solution := horizontalToJ2000 g time2 solutionAzAlt in
    let altOnlySolutionAzAlt := xyz2azAlt altSolutionPoint in
    let altOnlySolution := horizontalToJ2000 g time2 altOnlySolutionAzAlt in
    Returns (Some (solution, altOnlySolution)).

Definition negated (v : V3.t) : V3.t := V3.mk (- V3.x v) (- V3.y v) (- V3.z v).

Definition findAxis (pa : PolarAlign) : outcome (bool * PolarAlign) :=
  if negb (length (points pa) =? 3)%nat then Returns (false, pa)
  else
    point0 <- at_index (points pa) 0 ;;
    point1 <- at_index (points pa) 1 ;;
    point2 <- at_index (points pa) 2 ;;
    let p1 := azAlt2xyz (QPointF.mk (az point0) (alt point0)) in
    let p2 := azAlt2xyz (QPointF.mk (az point1) (alt point1)) in
    let p3 := azAlt2xyz (QPointF.mk (az point2) (alt point2)) in
    let axis := getAxis p1 p2 p3 in
    if Rlt_dec (V3_length axis) 0.9 then Returns (false, pa)
    else
      let axis :=
        if (northernHemisphere pa && Rltb (V3.x axis) 0)
           || (negb (northernHemisphere pa) && Rgtb (V3.x axis) 0)
        then negated axis else axis in
      let azAlt := xyz2azAlt axis in
      Returns (true, with_axis pa (QPointF.x azAlt) (QPointF.y azAlt)).

(** Returns the pair (azAxis, altAxis). *)
Definition getAxisOf (pa : PolarAlign) : R * R := (azimuthCenter pa, altitudeCenter pa).

(** *** The pixel search *)

Definition findAzAlt (pa : PolarAlign) (image : option FITSData)
    (azimuth altitude : R) : outcome (option QPointF.t) :=
  img <- deref image ;;
  g <- deref (geoLocation pa) ;;
  let j2000Coord := horizontalToCatalogue g (getDateTime img) azimuth altitude in
  Returns (wcsToPixel img j2000Coord).

Definition setMaxPixelSearchRange (pa : PolarAlign) (degrees : R) : PolarAlign :=
  let d := fabs degrees in
  if Rlt_dec d 2 then with_range pa 2.0
  else if Rgt_dec d 10 then with_range pa 10.0
  else with_range pa d.

Definition findCorrectedPixel (pa : PolarAlign) (image : option FITSData)
    (pixel : QPointF.t) (azOffset altOffset : R) : outcome (option QPointF.t) :=
  match prepareAzAlt pa image pixel with
  | None => Returns None
  | Some p =>
      let pixelAz := az p in
      let pixelAlt := alt p in
      let altRotation := if northernHemisphere pa then altOffset else - altOffset in
      let rotated :=
        rotateRaAxis (QPointF.mk pixelAz pixelAlt) (QPointF.mk azOffset altRotation) in
      findAzAlt pa image (QPointF.x rotated) (QPointF.y rotated)
  end.

Definition findCorrectedPixel_altOnly (pa : PolarAlign) (image : option FITSData)
    (pixel : QPointF.t) (altOnly : bool) : outcome (option QPointF.t) :=
  '(azOffset, altOffset) <- calculateAzAltError pa ;;
  let azOffset := if altOnly then 0.0 else azOffset in
  findCorrectedPixel pa image pixel azOffset altOffset.

(** What one grid pass of [pixelError] writes through its three
    out-parameters. *)
Record PixelFit : Type := mkPixelFit {
  fitAz : R;
  fitAlt : R;
  actualPixel : QPointF.t
}.

Definition tryPixel (pa : PolarAlign) (image : option FITSData)
    (pixel pixel2 : QPointF.t) (eAz eAlt : R) (st : R * PixelFit)
    : outcome (R * PixelFit) :=
  found <- findCorrectedPixel pa image pixel eAz eAlt ;;
  match found with
  | None => Returns st
  | Some pix =>
      let distSq :=
        (QPointF.x pix - QPointF.x pixel2) * (QPointF.x pix - QPointF.x pixel2)
        + (QPointF.y pix - QPointF.y pixel2) * (QPointF.y pix - QPointF.y pixel2) in
      if Rlt_dec distSq (fst st) then Returns (distSq, mkPixelFit eAz eAlt pix)
      else Returns st
  end.

(** The overload of [pixelError] that scans one grid. *)
Definition pixelErrorGrid (pa : PolarAlign) (image : option FITSData)
    (pixel pixel2 : QPointF.t) (minAz maxAz azInc minAlt maxAlt altInc : R)
    (out : PixelFit) : outcome PixelFit :=
  st <- for_lt maxAz azInc
          (fun eAz st =>
             for_lt maxAlt altInc
               (fun eAlt st => tryPixel pa image pixel pixel2 eAz eAlt st)
               minAlt st)
          minAz (1e9, out) ;;
  Returns (snd st).

(** The three passes of [pixelError], before the distance test. *)
Definition pixelErrorPasses (pa : PolarAlign) (image : option FITSData)
    (pixel pixel2 : QPointF.t) : outcome PixelFit :=
  _ <- calculateAzAltError pa ;;
  let m := maxPixelSearchRange pa in
  f1 <- pixelErrorGrid pa image pixel pixel2 (- m) m 0.2 (- m) m 0.2
          (mkPixelFit 0 0 QPointF_default) ;;
  f2 <- pixelErrorGrid pa image pixel pixel2
          (fitAz f1 - 0.2) (fitAz f1 + 0.2) 0.02
          (fitAlt f1 - 0.2) (fitAlt f1 + 0.2) 0.02 f1 ;;
  pixelErrorGrid pa image pixel pixel2
    (fitAz f2 - 0.02) (fitAz f2 + 0.02) 0.002
    (fitAlt f2 - 0.02) (fitAlt f2 + 0.02) 0.002 f2.

(** Returns the pair (azError, altError). *)
Definition pixelError (pa : PolarAlign) (image : option FITSData)
    (pixel pixel2 : QPointF.t) : outcome (option (R * R)) :=
  fit <- pixelErrorPasses pa image pixel pixel2 ;;
  let pix := actualPixel fit in
  let pixDist :=
    hypot (QPointF.x pix - QPointF.x pixel2) (QPointF.y pix - QPointF.y pixel2) in
  if Rgt_dec pixDist 10 then Returns None
  else Returns (Some (fitAz fit, fitAlt fit)).

(** *** Sessions *)

(** One call of a member function that can change the members.  The other
    member functions ([processRefreshCoords], [refreshSolution], [getAxis],
    [findAzAlt], [calculateAzAltError], [pixelError], [findCorrectedPixel])
    assign to none of them. *)
Inductive step (pa : PolarAlign) : PolarAlign -> Prop :=
| step_reset : step pa (reset pa)
| step_addPoint (image : option FITSData) (ok : bool) (pa' : PolarAlign) :
    addPoint pa image = Returns (ok, pa') -> step pa pa'
| step_findAxis (ok : bool) (pa' : PolarAlign) :
    findAxis pa = Returns (ok, pa') -> step pa pa'
| step_setMaxPixelSearchRange (degrees : R) :
    step pa (setMaxPixelSearchRange pa degrees).

(** The states of a session: a constructed object, and what calls of member
    functions make of it. *)
Inductive session : PolarAlign -> Prop :=
| session_constructed (geo : option GeoLocation) (instance : option (option GeoLocation))
    (azimuthCenter0 altitudeCenter0 maxPixelSearchRange0 : R) :
    session (PolarAlign_new geo instance azimuthCenter0 altitudeCenter0
               maxPixelSearchRange0)
| session_step (pa pa' : PolarAlign) :
    session pa -> step pa pa' -> session pa'.

End PolarAlign.

(** ** The error formulas as the specification words them *)

(** [axisToError] of the specification: the altitude error is the axis
    altitude minus the latitude (north) or plus the latitude (south); the
    azimuth error is the axis azimuth (north) or the axis azimuth plus 180
    degrees (south), normalized.  Returns the pair (azimuth error, altitude
    error); the normalization is the one of the code. *)
Definition axisToError (axisAz axisAlt latitude : R) (hemisphereIsNorth : bool)
    : R * R :=
  (wrapAbove180 (if hemisphereIsNorth then axisAz else axisAz + 180),
   if hemisphereIsNorth then axisAlt - latitude else axisAlt + latitude).

(** The grid of a [for_le] loop: the counter values [lo + k * inc] that do
    not exceed [hi]. *)
Definition sampled (lo hi inc t : R) : Prop :=
  exists k : nat, t = lo + INR k * inc /\ t <= hi.

(** The grid of a [for_lt] loop: the counter values [lo + k * inc] that are
    below [hi]. *)
Definition sampled_lt (lo hi inc t : R) : Prop :=
  exists k : nat, t = lo + INR k * inc /\ t < hi.

(** The counter values of a loop, in the order of the iterations. *)
Fixpoint samples (n : nat) (v inc : R) : list R :=
  match n with
  | O => []
  | S n => v :: samples n (v + inc) inc
  end.

(** A loop body run over a list of counter values. *)
Fixpoint runBody {St : Type} (body : R -> St -> outcome St) (l : list R) (s : St)
    : outcome St :=
  match l with
  | [] => Returns s
  | v :: l => s' <- body v s ;; runBody body l s'
  end.

(** ** A rotation kernel after the specification *)

(** None of rotations.h and rotations.cpp is at hand.  This module models
    the kernel from the wording of the specification (section 4.1 and 4.2).
    It serves the statements that are about the kernel itself and the worked
    examples; the general theorems do not depend on it. *)
Module SpecRotations.

(** Modelled from the spec: the conversions between the degrees of the
    public contract and the radians of the trigonometric functions
    (rotations.cpp is missing). *)
Definition d2r (degrees : R) : R := degrees * PI / 180.

Definition r2d (radians : R) : R := radians * 180 / PI.

(** Modelled from the spec: the vector operations behind "chord vectors",
    "cross product" and "angular separation" (rotations.cpp is missing). *)
Definition dot (a b : V3.t) : R :=
  V3.x a * V3.x b + V3.y a * V3.y b + V3.z a * V3.z b.

Definition cross (a b : V3.t) : V3.t :=
  V3.mk (V3.y a * V3.z b - V3.z a * V3.y b)
        (V3.z a * V3.x b - V3.x a * V3.z b)
        (V3.x a * V3.y b - V3.y a * V3.x b).

Definition minus (a b : V3.t) : V3.t :=
  V3.mk (V3.x a - V3.x b) (V3.y a - V3.y b) (V3.z a - V3.z b).

(** Modelled from the spec: [V3::length] (rotations.h is missing), the
    length whose shortfall from "unit length" the Axis Estimator tests. *)
Definition length (v : V3.t) : R := sqrt (dot v v).

(** Modelled from the spec: [toCartesian] (rotations.cpp is missing), "standard
    spherical-to-Cartesian mapping under a fixed right-handed convention".
    The x axis points north and the z axis up; azimuth grows from north
    towards east, which is the side of negative y in a right-handed frame. *)
Definition azAlt2xyz (azAlt : QPointF.t) : V3.t :=
  let azRadians := d2r (QPointF.x azAlt) in
  let altRadians := d2r (QPointF.y azAlt) in
  V3.mk (cos altRadians * cos azRadians) (- cos altRadians * sin azRadians)
        (sin altRadians).

(** Modelled from the spec: [toSpherical] (rotations.cpp is missing), the
    "inverse mapping" that "returns a defined default, e.g. az=0 only at the
    unit-vector's poles (zero-length projection)"; azimuths are in
    [0, 360). *)
Definition xyz2azAlt (xyz : V3.t) : QPointF.t :=
  let h := sqrt (V3.x xyz * V3.x xyz + V3.y xyz * V3.y xyz) in
  let azRadians :=
    if Req_dec_T h 0 then 0
    else if Rle_dec (V3.y xyz) 0 then acos (V3.x xyz / h)
    else 2 * PI - acos (V3.x xyz / h) in
  QPointF.mk (r2d azRadians) (r2d (asin (V3.z xyz))).

(** Modelled from the spec: [rotateAroundY] (rotations.cpp is missing), one
    of the "standard axis rotations": the right-handed turn around the y
    axis. *)
Definition rotateAroundY (point : V3.t) (degrees : R) : V3.t :=
  let radians := d2r degrees in
  V3.mk (V3.x point * cos radians + V3.z point * sin radians)
        (V3.y point)
        (- V3.x point * sin radians + V3.z point * cos radians).

(** Modelled from the spec: [rotateAroundZ] (rotations.cpp is missing), the
    other of the "standard axis rotations". *)
Definition rotateAroundZ (point : V3.t) (degrees : R) : V3.t :=
  let radians := d2r degrees in
  V3.mk (V3.x point * cos radians - V3.y point * sin radians)
        (V3.x point * sin radians + V3.y point * cos radians)
        (V3.z point).

(** Modelled from the spec: [rotateAroundAxis] (rotations.cpp is missing),
    "Rodrigues' rotation formula around an arbitrary unit axis". *)
Definition rotateAroundAxis (point axis : V3.t) (degrees : R) : V3.t :=
  let radians := d2r degrees in
  let c := cos radians in
  let s := sin radians in
  let k := cross axis point in
  let d := dot axis point * (1 - c) in
  V3.mk (V3.x point * c + V3.x k * s + V3.x axis * d)
        (V3.y point * c + V3.y k * s + V3.y axis * d)
        (V3.z point * c + V3.z k * s + V3.z axis * d).

(** Modelled from the spec: [angleBetween] (rotations.cpp is missing),
    "great-circle angular separation, always non-negative, 0 <= result <=
    180". *)
Definition getAngle (p1 p2 : V3.t) : R :=
  r2d (acos (dot p1 p2 / (length p1 * length p2))).

(** Modelled from the spec: the fit of [estimateAxis] (rotations.cpp is
    missing), "two chord vectors (p2-p1, p3-p2) and their cross product,
    normalized".  A cross product of length zero has no direction and stays
    the zero vector: that is the vector [findAxis] reports as "failed to
    normalize". *)
Definition getAxis (p1 p2 p3 : V3.t) : V3.t :=
  let d21 := minus p2 p1 in
  let d32 := minus p3 p2 in
  let c := cross d21 d32 in
  let lenSq := dot c c in
  if Req_dec_T lenSq 0 then V3.mk 0 0 0
  else
    let len := sqrt lenSq in
    V3.mk (V3.x c / len) (V3.y c / len) (V3.z c / len).

(** Modelled from the spec: the rotation of [findCorrectedPixel]
    (rotations.cpp is missing), "a rotation of the az/alt point analogous to
    rotate the celestial pole by (azOffset, altRotation)". *)
Definition rotateRaAxis (azAltPoint azAltRotation : QPointF.t) : QPointF.t :=
  let point := azAlt2xyz azAltPoint in
  let altRotated := rotateAroundY point (QPointF.y azAltRotation) in
  xyz2azAlt (rotateAroundZ altRotated (QPointF.x azAltRotation)).

(** The kernel of the specification as an implementation of [Rotations]. *)
Definition kernel : Rotations :=
  Build_Rotations azAlt2xyz xyz2azAlt rotateAroundY rotateAroundZ
    rotateAroundAxis getAngle getAxis rotateRaAxis length.

End SpecRotations.

(** ** A sky for worked examples *)

(** A site whose pixel grid is the (azimuth, altitude) grid itself: the
    latitude is known, instants are whole seconds, a sky point is its
    (azimuth, altitude) pair and no conversion moves a point. *)
Module FlatSky.

Definition sky : Sky :=
  {| GeoLocation := R;
     KStarsDateTime := Z;
     SkyPoint := QPointF.t;
     FITSData := Z;
     lat := fun g => Some g;
     az := QPointF.x;
     alt := QPointF.y;
     secsTo := fun t u => (u - t)%Z;
     apparentCoord := fun c _ => c;
     timeTransformed := fun _ c _ => c;
     horizontalToJ2000 := fun _ _ p => p;
     horizontalToCatalogue := fun _ _ a h => QPointF.mk a h;
     getDateTime := fun img => img;
     width := fun _ => 640%Z;
     height := fun _ => 480%Z;
     pixelToWCS := fun _ p => Some p;
     wcsToPixel := fun _ p => Some p |}.

(** A session at latitude [latitude] with the given samples and axis. *)
Definition session (latitude : R) (ps : list QPointF.t) (ts : list Z)
    (azC altC : R) : @PolarAlign sky :=
  @mkPolarAlign sky (Some latitude) ps ts azC altC 2.

End FlatSky.

(** The sessions of the examples: latitude 45 degrees north, stored axis at
    azimuth 0 and altitude 75. *)
Definition corners : list QPointF.t := [QPointF.mk 0 0; QPointF.mk 90 0; QPointF.mk 0 90].

Definition emptySession : @PolarAlign FlatSky.sky := FlatSky.session 45 [] [] 0 75.

Definition cornerSession : @PolarAlign FlatSky.sky :=
  FlatSky.session 45 corners [0%Z; 600%Z; 1200%Z] 0 75.

Definition stuckSession : @PolarAlign FlatSky.sky :=
  FlatSky.session 45 [QPointF.mk 10 20; QPointF.mk 10 20; QPointF.mk 10 20]
    [0%Z; 600%Z; 1200%Z] 0 75.

(** ** Notions used by the properties *)

Section Notions.

Context {rot : Rotations} {sky : Sky}.

(** The Cartesian point of a stored sample. *)
Definition cartesian (p : SkyPoint) : V3.t := azAlt2xyz (QPointF.mk (az p) (alt p)).

(** The axis [findAxis] converts and stores: the fitted normal, negated when
    it points away from the observer's pole. *)
Definition poleward (pa : PolarAlign) (fitted : V3.t) : V3.t :=
  if (northernHemisphere pa && Rltb (V3.x fitted) 0)
     || (negb (northernHemisphere pa) && Rgtb (V3.x fitted) 0)
  then negated fitted else fitted.

(** The point of the new image, as [processRefreshCoords] derives it. *)
Definition observedPoint (pa : PolarAlign) (coords : SkyPoint) (time : KStarsDateTime)
    : V3.t :=
  let point := timeTransformed (geoLocation pa) (apparentCoord coords time) time in
  azAlt2xyz (QPointF.mk (az point) (alt point)).

(** The statements after the search of [processRefreshCoords]. *)
Definition refreshFrom (pa : PolarAlign) (found : Rotation) : outcome (option Refresh) :=
  if Rgt_dec (minDist found) 0.5 then Returns None
  else
    let origAxisPoint := azAlt2xyz (QPointF.mk (azimuthCenter pa) (altitudeCenter pa)) in
    let newAxisAzAlt :=
      xyz2azAlt (rotateAroundZ (rotateAroundY origAxisPoint (bestAngleY found))
                   (bestAngleZ found)) in
    latitude <- latitudeDegrees pa ;;
    let errors :=
      axisToError (QPointF.x newAxisAzAlt) (QPointF.y newAxisAzAlt) latitude
        (northernHemisphere pa) in
    Returns (Some (mkRefresh (fst errors) (snd errors) (bestAngleZ found) (bestAngleY found))).

(** The best rotation so far was found at a pair of the two grids. *)
Definition found_at (from goal : V3.t) (ys zs : list R) (best : Rotation) : Prop :=
  exists ty tz, In ty ys /\ In tz zs /\
    best = mkRotation (getResidual from ty tz goal) tz ty.

(** The residual angle of a pair of angles, in the words of the
    specification: the angle, taken without sign, between the goal and the
    point [from] rotated around Y by [thetaY] and then around Z by
    [thetaZ]. *)
Definition residualAngle (from goal : V3.t) (thetaY thetaZ : R) : R :=
  Rabs (getAngle (rotateAroundZ (rotateAroundY from thetaY) thetaZ) goal).

(** The pair [best] is on the grid of a pass centred at ([yStart], [zStart]),
    the distance it carries is its residual angle, and no pair of that grid
    has a smaller residual angle. *)
Definition best_on_grid (from goal : V3.t) (zStart yStart range increment : R)
    (best : Rotation) : Prop :=
  sampled (yStart - range) (yStart + range) increment (bestAngleY best)
  /\ sampled (zStart - range) (zStart + range) increment (bestAngleZ best)
  /\ minDist best = residualAngle from goal (bestAngleY best) (bestAngleZ best)
  /\ forall thetaY thetaZ,
       sampled (yStart - range) (yStart + range) increment thetaY ->
       sampled (zStart - range) (zStart + range) increment thetaZ ->
       minDist best <= residualAngle from goal thetaY thetaZ.

(** The fit is the one a pass started from, or the pixel it carries is the
    corrected pixel of the offsets it carries. *)
Definition fit_consistent (pa : PolarAlign) (image : option FITSData)
    (pixel : QPointF.t) (start fit : PixelFit) : Prop :=
  fit = start
  \/ findCorrectedPixel pa image pixel (fitAz fit) (fitAlt fit)
     = Returns (Some (actualPixel fit)).

(** The square of the distance between two pixels, as the scan of
    [pixelError] computes it. *)
Definition distSq (pix pixel2 : QPointF.t) : R :=
  (QPointF.x pix - QPointF.x pixel2) * (QPointF.x pix - QPointF.x pixel2)
  + (QPointF.y pix - QPointF.y pixel2) * (QPointF.y pix - QPointF.y pixel2).

(** The state [st] of a scan was taken from a candidate of the two lists. *)
Definition taken_at (pa : PolarAlign) (image : option FITSData)
    (pixel pixel2 : QPointF.t) (azs alts : list R) (st : R * PixelFit) : Prop :=
  exists eAz eAlt pix,
    In eAz azs /\ In eAlt alts
    /\ findCorrectedPixel pa image pixel eAz eAlt = Returns (Some pix)
    /\ st = (distSq pix pixel2, mkPixelFit eAz eAlt pix).

(** What a grid pass of [pixelError] that started from [start] ends with:
    either no candidate of its grid came closer to [pixel2] than the start
    value 1e9 of the squared distance allows, and the fit is still [start]; or
    the fit is a candidate of the grid, and no candidate of the grid is closer
    to [pixel2]. *)
Definition best_pixel_of_pass (pa : PolarAlign) (image : option FITSData)
    (pixel pixel2 : QPointF.t) (minAz maxAz azInc minAlt maxAlt altInc : R)
    (start fit : PixelFit) : Prop :=
  let candidate eAz eAlt pix :=
    sampled_lt minAz maxAz azInc eAz /\ sampled_lt minAlt maxAlt altInc eAlt
    /\ findCorrectedPixel pa image pixel eAz eAlt = Returns (Some pix) in
  (fit = start
   /\ forall eAz eAlt pix, candidate eAz eAlt pix -> 1e9 <= distSq pix pixel2)
  \/ (candidate (fitAz fit) (fitAlt fit) (actualPixel fit)
      /\ distSq (actualPixel fit) pixel2 < 1e9
      /\ forall eAz eAlt pix,
           candidate eAz eAlt pix ->
           distSq (actualPixel fit) pixel2 <= distSq pix pixel2).


End Notions.

(** ** The sky map (class [SkyMap], the first part of src/kstars/skymap.cpp) *)

(** The calls [SkyMap::slotClockSlewing] makes on the clock and on the main
    window. *)
Inductive ClockCall : Type :=
| SetManualMode (on : bool)
| UpdateTime (automaticDSTchange : bool).

(** [SkyMap::slotClockSlewing].  [scale] is [data->clock()->scale()],
    [slewTimeScale] is [Options::slewTimeScale()] and [kstars] tells whether
    [KStars::Instance()] is there.  Returns the member [clockSlewing] after
    the call and the calls made, in their order. *)
Definition slotClockSlewing (scale slewTimeScale : R) (kstars : bool)
    (clockSlewing : bool) : bool * list ClockCall :=
  if xorb (Rgtb (fabs scale) slewTimeScale) clockSlewing then
    (negb clockSlewing,
     SetManualMode (negb clockSlewing) :: (if kstars then [UpdateTime false] else []))
  else (clockSlewing, []).

(** [SkyMap::isSlewing]; [clockActive] is [data->clock()->isActive()]. *)
Definition isSlewing (slewing clockSlewing clockActive : bool) : bool :=
  slewing || (clockSlewing && clockActive).

Definition Rgeb (a b : R) : bool := if Rge_dec a b then true else false.
Definition Rneqb (a b : R) : bool := if Req_dec_T a b then false else true.

(** The field of view that [SkyMap::slotEndRulerMode] reads from a FOV symbol
    of sizes [sizeX] and [sizeY], in both places where it reads one:
    [(sizeX >= sizeY && sizeY != 0) ? sizeY : sizeX]. *)
Definition starHopFov (sizeX sizeY : R) : R :=
  if Rgeb sizeX sizeY && Rneqb sizeY 0 then sizeY else sizeX.

(** ** More notions and examples *)

Section MoreNotions.

Context {sky : Sky}.

(** The pixel [addPoint] samples: [QPointF(image->width() / 2,
    image->height() / 2)], with the division of integers. *)
Definition imageCenter (img : FITSData) : QPointF.t :=
  QPointF.mk (IZR (Z.quot (width img) 2)) (IZR (Z.quot (height img) 2)).

(** The session [pa] with the sample taken from [img] as its last one. *)
Definition with_sample (pa : PolarAlign) (img : FITSData) (coords : SkyPoint)
    : PolarAlign :=
  with_samples pa (points pa ++ [coords]) (times pa ++ [getDateTime img]).

End MoreNotions.

(** A session without a site, and a session of the southern hemisphere. *)
Definition sitelessSession : @PolarAlign FlatSky.sky :=
  @mkPolarAlign FlatSky.sky None corners [0%Z; 600%Z; 1200%Z] 0 75 2.

Definition southSession : @PolarAlign FlatSky.sky := FlatSky.session (-30) [] [] 170 31.

(** * Properties *)

(** ** The loops *)

Lemma for_le_eq {St : Type} (hi inc : R) (body : R -> St -> outcome St) (v : R) (s : St) :
  for_le hi inc body v s =
  if Rle_dec v hi then
    if Rlt_dec 0 inc then s' <- body v s ;; for_le hi inc body (v + inc) s'
    else Faults Diverges
  else Returns s.
Proof.
  rewrite for_le_equation_1.
  destruct (Rle_dec v hi); simpl; [| reflexivity].
  destruct (Rlt_dec 0 inc); simpl; [| reflexivity].
  destruct (body v s); reflexivity.
Qed.

Lemma for_lt_eq {St : Type} (hi inc : R) (body : R -> St -> outcome St) (v : R) (s : St) :
  for_lt hi inc body v s =
  if Rlt_dec v hi then
    if Rlt_dec 0 inc then s' <- body v s ;; for_lt hi inc body (v + inc) s'
    else Faults Diverges
  else Returns s.
Proof.
  rewrite for_lt_equation_1.
  destruct (Rlt_dec v hi); simpl; [| reflexivity].
  destruct (Rlt_dec 0 inc); simpl; [| reflexivity].
  destruct (body v s); reflexivity.
Qed.

Lemma wrapAbove180_eq (a : R) :
  wrapAbove180 a = if Rgt_dec a 180 then wrapAbove180 (a - 360) else a.
Proof.
  rewrite wrapAbove180_equation_1. destruct (Rgt_dec a 180); reflexivity.
Qed.

(** A [for_le] loop with a positive increment runs its body over the
    counter values below the bound, in order. *)
Lemma for_le_samples {St : Type} (hi inc : R) (body : R -> St -> outcome St) :
  0 < inc ->
  forall (v : R) (s : St),
    for_le hi inc body v s = runBody body (samples (count_le hi inc v) v inc) s.
Proof.
  intros Hinc v. remember (count_le hi inc v) as n eqn:Hn.
  revert v Hn. induction n as [| n IH]; intros v Hn s; rewrite for_le_eq.
  - destruct (Rle_dec v hi) as [Hle | Hgt]; [| reflexivity].
    rewrite (count_le_step hi inc v Hinc Hle) in Hn. discriminate.
  - destruct (Rle_dec v hi) as [Hle | Hgt].
    + destruct (Rlt_dec 0 inc) as [_ | Hn0]; [| contradiction].
      simpl. destruct (body v s) as [s' | f]; simpl; [| reflexivity].
      apply IH. rewrite (count_le_step hi inc v Hinc Hle) in Hn. congruence.
    + rewrite count_le_done in Hn by lra. discriminate.
Qed.

(** A [for_lt] loop with a positive increment runs its body over the
    counter values strictly below the bound, in order. *)
Lemma for_lt_samples {St : Type} (hi inc : R) (body : R -> St -> outcome St) :
  0 < inc ->
  forall (v : R) (s : St),
    for_lt hi inc body v s = runBody body (samples (count_lt hi inc v) v inc) s.
Proof.
  intros Hinc v. remember (count_lt hi inc v) as n eqn:Hn.
  revert v Hn. induction n as [| n IH]; intros v Hn s; rewrite for_lt_eq.
  - destruct (Rlt_dec v hi) as [Hlt | Hge]; [| reflexivity].
    rewrite (count_lt_step hi inc v Hinc Hlt) in Hn. discriminate.
  - destruct (Rlt_dec v hi) as [Hlt | Hge].
    + destruct (Rlt_dec 0 inc) as [_ | Hn0]; [| contradiction].
      simpl. destruct (body v s) as [s' | f]; simpl; [| reflexivity].
      apply IH. rewrite (count_lt_step hi inc v Hinc Hlt) in Hn. congruence.
    + rewrite count_lt_done in Hn by lra. discriminate.
Qed.

Lemma count_le_spec (hi inc : R) :
  0 < inc ->
  forall (k : nat) (v : R), (k < count_le hi inc v)%nat <-> v + INR k * inc <= hi.
Proof.
  intros Hinc. induction k as [| k IH]; intros v.
  - simpl. rewrite Rmult_0_l, Rplus_0_r.
    destruct (Rle_dec v hi) as [Hle | Hgt].
    + rewrite (count_le_step hi inc v Hinc Hle). split; [intros _; exact Hle | lia].
    + rewrite count_le_done by lra. split; [lia | lra].
  - rewrite S_INR.
    destruct (Rle_dec v hi) as [Hle | Hgt].
    + rewrite (count_le_step hi inc v Hinc Hle).
      specialize (IH (v + inc)). split; intros H.
      * assert (Hk : (k < count_le hi inc (v + inc))%nat) by lia.
        apply IH in Hk. lra.
      * assert (Hk : v + inc + INR k * inc <= hi) by lra.
        apply IH in Hk. lia.
    + rewrite count_le_done by lra. split; [lia |].
      intros H. pose proof (pos_INR k). nra.
Qed.

Lemma in_samples (n : nat) (inc t : R) :
  forall v : R, In t (samples n v inc) <-> exists k : nat, (k < n)%nat /\ t = v + INR k * inc.
Proof.
  induction n as [| n IH]; intros v; simpl.
  - split; [contradiction | intros [k [Hk _]]; lia].
  - rewrite IH. split.
    + intros [Hv | [k [Hk Ht]]].
      * exists 0%nat. split; [lia | simpl; lra].
      * exists (S k). split; [lia | rewrite S_INR; lra].
    + intros [[| k] [Hk Ht]].
      * left. simpl in Ht. lra.
      * right. exists k. split; [lia | rewrite S_INR in Ht; lra].
Qed.

(** The values a [for_le] loop visits are the [sampled] ones. *)
Lemma in_samples_sampled (lo hi inc t : R) :
  0 < inc -> In t (samples (count_le hi inc lo) lo inc) <-> sampled lo hi inc t.
Proof.
  intros Hinc. rewrite in_samples. unfold sampled. split.
  - intros [k [Hk Ht]]. exists k. split; [exact Ht |].
    rewrite Ht. apply (count_le_spec hi inc Hinc). exact Hk.
  - intros [k [Ht Hle]]. exists k. split; [| exact Ht].
    apply (count_le_spec hi inc Hinc). rewrite <- Ht. exact Hle.
Qed.

Lemma count_lt_spec (hi inc : R) :
  0 < inc ->
  forall (k : nat) (v : R), (k < count_lt hi inc v)%nat <-> v + INR k * inc < hi.
Proof.
  intros Hinc. induction k as [| k IH]; intros v.
  - simpl. rewrite Rmult_0_l, Rplus_0_r.
    destruct (Rlt_dec v hi) as [Hlt | Hge].
    + rewrite (count_lt_step hi inc v Hinc Hlt). split; [intros _; exact Hlt | lia].
    + rewrite count_lt_done by lra. split; [lia | lra].
  - rewrite S_INR.
    destruct (Rlt_dec v hi) as [Hlt | Hge].
    + rewrite (count_lt_step hi inc v Hinc Hlt).
      specialize (IH (v + inc)). split; intros H.
      * assert (Hk : (k < count_lt hi inc (v + inc))%nat) by lia.
        apply IH in Hk. lra.
      * assert (Hk : v + inc + INR k * inc < hi) by lra.
        apply IH in Hk. lia.
    + rewrite count_lt_done by lra. split; [lia |].
      intros H. pose proof (pos_INR k). nra.
Qed.

(** The values a [for_lt] loop visits are the [sampled_lt] ones. *)
Lemma in_samples_sampled_lt (lo hi inc t : R) :
  0 < inc -> In t (samples (count_lt hi inc lo) lo inc) <-> sampled_lt lo hi inc t.
Proof.
  intros Hinc. rewrite in_samples. unfold sampled_lt. split.
  - intros [k [Hk Ht]]. exists k. split; [exact Ht |].
    rewrite Ht. apply (count_lt_spec hi inc Hinc). exact Hk.
  - intros [k [Ht Hlt]]. exists k. split; [| exact Ht].
    apply (count_lt_spec hi inc Hinc). rewrite <- Ht. exact Hlt.
Qed.


(** An invariant of the body is an invariant of the run. *)
Lemma runBody_invariant {St : Type} (body : R -> St -> outcome St) (P : St -> Prop) :
  (forall v s s', P s -> body v s = Returns s' -> P s') ->
  forall l s s', P s -> runBody body l s = Returns s' -> P s'.
Proof.
  intros Hbody. induction l as [| v l IH]; intros s s' Hs; simpl.
  - intros H. injection H as <-. exact Hs.
  - destruct (body v s) as [s1 | f] eqn:H1; simpl; [| discriminate].
    apply IH. exact (Hbody v s s1 Hs H1).
Qed.

(** ** The normalization loop *)

Lemma wrapAbove180_le (a : R) : wrapAbove180 a <= 180.
Proof.
  funelim (wrapAbove180 a); [assumption | lra].
Qed.

Lemma wrapAbove180_id (a : R) : a <= 180 -> wrapAbove180 a = a.
Proof.
  intros Ha. rewrite wrapAbove180_eq. destruct (Rgt_dec a 180); [lra | reflexivity].
Qed.

Lemma wrapAbove180_gt (a : R) : -180 < a -> -180 < wrapAbove180 a.
Proof.
  funelim (wrapAbove180 a); intros Ha; [| exact Ha].
  match goal with IH : _ -> -180 < wrapAbove180 _ |- _ => apply IH end. lra.
Qed.

Lemma wrapAbove180_turns (a : R) : exists k : nat, wrapAbove180 a = a - 360 * INR k.
Proof.
  funelim (wrapAbove180 a).
  - match goal with IH : exists _, _ |- _ => destruct IH as [k Hk] end.
    exists (S k). rewrite Hk, S_INR. lra.
  - exists 0%nat. simpl. lra.
Qed.

Lemma runBody_ext {St : Type} (body1 body2 : R -> St -> outcome St) :
  (forall v s, body1 v s = body2 v s) ->
  forall l s, runBody body1 l s = runBody body2 l s.
Proof.
  intros Hext. induction l as [| v l IH]; intros s; simpl; [reflexivity |].
  rewrite Hext. destruct (body2 v s); simpl; [apply IH | reflexivity].
Qed.

(** ** The refresh search *)

Section SearchFacts.

Context {rot : Rotations}.

Variables from goal : V3.t.

Lemma scan_row (ty : R) (zs : list R) :
  forall best : Rotation,
  exists best',
    runBody (fun tz b => Returns (tryRotation from goal ty tz b)) zs best = Returns best'
    /\ minDist best' <= minDist best
    /\ (forall tz, In tz zs -> minDist best' <= getResidual from ty tz goal)
    /\ (best' = best \/ found_at from goal [ty] zs best').
Proof.
  induction zs as [| tz0 zs IH]; intros best; simpl.
  - exists best. repeat split; [lra | contradiction | left; reflexivity].
  - destruct (IH (tryRotation from goal ty tz0 best)) as [b [Hrun [Hle [Hmin Hat]]]].
    exists b. unfold tryRotation in *.
    destruct (Rlt_dec (getResidual from ty tz0 goal) (minDist best)) as [Hlt | Hge];
      simpl in *.
    + split; [exact Hrun |]. split; [lra |]. split.
      * intros tz [<- | Hin]; [exact Hle | exact (Hmin tz Hin)].
      * right. destruct Hat as [-> | [y [z0 [Hy [Hz Hb]]]]].
        -- exists ty, tz0. simpl. auto.
        -- exists y, z0. simpl. auto.
    + split; [exact Hrun |]. split; [exact Hle |]. split.
      * intros tz [<- | Hin]; [lra | exact (Hmin tz Hin)].
      * destruct Hat as [-> | [y [z0 [Hy [Hz Hb]]]]]; [left; reflexivity |].
        right. exists y, z0. simpl. auto.
Qed.

Lemma scan_grid (ys zs : list R) :
  forall best : Rotation,
  exists best',
    runBody
      (fun ty b => runBody (fun tz b => Returns (tryRotation from goal ty tz b)) zs b)
      ys best = Returns best'
    /\ minDist best' <= minDist best
    /\ (forall ty tz, In ty ys -> In tz zs -> minDist best' <= getResidual from ty tz goal)
    /\ (best' = best \/ found_at from goal ys zs best').
Proof.
  induction ys as [| ty0 ys IH]; intros best; simpl.
  - exists best. repeat split; [lra | contradiction | left; reflexivity].
  - destruct (scan_row ty0 zs best) as [b0 [Hrow [Hle0 [Hmin0 Hat0]]]].
    rewrite Hrow. simpl.
    destruct (IH b0) as [b [Hrun [Hle [Hmin Hat]]]].
    exists b. split; [exact Hrun |]. split; [lra |]. split.
    + intros ty tz [<- | Hin] Hz.
      * specialize (Hmin0 tz Hz). lra.
      * exact (Hmin ty tz Hin Hz).
    + destruct Hat as [-> | [y [z0 [Hy [Hz Hb]]]]].
      * destruct Hat0 as [-> | [y [z0 [Hy [Hz Hb]]]]]; [left; reflexivity |].
        right. exists y, z0. simpl in Hy. destruct Hy as [<- | []]. simpl. auto.
      * right. exists y, z0. simpl. auto.
Qed.

(** [getBestRotation] is the scan of its two grids. *)
Lemma getBestRotation_scan (zStart yStart range increment : R) :
  0 < increment ->
  getBestRotation from goal zStart yStart range increment =
  runBody
    (fun ty b =>
       runBody (fun tz b => Returns (tryRotation from goal ty tz b))
         (samples (count_le (zStart + Rabs range) increment (zStart - Rabs range))
            (zStart - Rabs range) increment) b)
    (samples (count_le (yStart + Rabs range) increment (yStart - Rabs range))
       (yStart - Rabs range) increment)
    (mkRotation 1e8 0 0).
Proof.
  intros Hinc. unfold getBestRotation, fabs.
  rewrite for_le_samples by exact Hinc.
  apply runBody_ext. intros ty b. apply for_le_samples. exact Hinc.
Qed.

Lemma getBestRotation_returns (zStart yStart range increment : R) :
  0 < increment ->
  exists best, getBestRotation from goal zStart yStart range increment = Returns best.
Proof.
  intros Hinc. rewrite getBestRotation_scan by exact Hinc.
  destruct (scan_grid
    (samples (count_le (yStart + Rabs range) increment (yStart - Rabs range))
       (yStart - Rabs range) increment)
    (samples (count_le (zStart + Rabs range) increment (zStart - Rabs range))
       (zStart - Rabs range) increment)
    (mkRotation 1e8 0 0)) as [b [Hrun _]].
  exists b. exact Hrun.
Qed.

Lemma getBestRotation_best (zStart yStart range increment : R) :
  0 < increment -> 0 <= range ->
  (forall thetaY thetaZ, getResidual from thetaY thetaZ goal < 1e8) ->
  exists best,
    getBestRotation from goal zStart yStart range increment = Returns best
    /\ best_on_grid from goal zStart yStart range increment best.
Proof.
  intros Hinc Hrange Hres. rewrite getBestRotation_scan by exact Hinc.
  rewrite (Rabs_pos_eq range Hrange).
  set (ys := samples _ (yStart - range) increment).
  set (zs := samples _ (zStart - range) increment).
  destruct (scan_grid ys zs (mkRotation 1e8 0 0)) as [b [Hrun [_ [Hmin Hat]]]].
  exists b. split; [exact Hrun |].
  assert (Hy0 : In (yStart - range) ys).
  { apply in_samples_sampled; [exact Hinc |]. exists 0%nat. simpl. lra. }
  assert (Hz0 : In (zStart - range) zs).
  { apply in_samples_sampled; [exact Hinc |]. exists 0%nat. simpl. lra. }
  destruct Hat as [-> | [ty [tz [Hy [Hz ->]]]]].
  - specialize (Hmin _ _ Hy0 Hz0). simpl in Hmin.
    specialize (Hres (yStart - range) (zStart - range)). lra.
  - unfold best_on_grid. simpl.
    split; [apply in_samples_sampled in Hy; assumption |].
    split; [apply in_samples_sampled in Hz; assumption |].
    split; [reflexivity |].
    intros thetaY thetaZ HY HZ.
    apply (in_samples_sampled _ _ _ _ Hinc) in HY.
    apply (in_samples_sampled _ _ _ _ Hinc) in HZ.
    exact (Hmin thetaY thetaZ HY HZ).
Qed.

Lemma pass1Resolution_pos : 0 < pass1Resolution.
Proof. unfold pass1Resolution. lra. Qed.

Lemma pass2Resolution_pos : 0 < pass2Resolution.
Proof. unfold pass2Resolution. lra. Qed.

Lemma pass1Range_bounds : 1 <= pass1Range from goal <= 10.
Proof.
  unfold pass1Range, Rmax, Rmin.
  destruct (Rle_dec 10.0 (2.5 * fabs (getAngle from goal)));
    destruct (Rle_dec 1.0 _); lra.
Qed.

Lemma getRotationAngles_returns :
  exists found, getRotationAngles from goal = Returns found.
Proof.
  unfold getRotationAngles.
  destruct (getBestRotation_returns 0 0 (pass1Range from goal) pass1Resolution
              pass1Resolution_pos) as [b1 H1].
  rewrite H1. simpl.
  apply getBestRotation_returns. exact pass2Resolution_pos.
Qed.

End SearchFacts.

(** ** The session and its samples *)

Section SessionFacts.

Context {rot : Rotations} {sky : Sky}.

Lemma findAxis_without_three (pa : PolarAlign) :
  length (points pa) <> 3%nat -> findAxis pa = Returns (false, pa).
Proof.
  intros Hlen. unfold findAxis.
  destruct (Nat.eqb_spec (length (points pa)) 3) as [Heq | _]; [contradiction |].
  reflexivity.
Qed.

Lemma refreshSolution_without_three (pa : PolarAlign) :
  length (points pa) <> 3%nat -> refreshSolution pa = Returns None.
Proof.
  intros Hlen. unfold refreshSolution.
  destruct (Nat.eqb_spec (length (points pa)) 3) as [Heq | _]; [contradiction |].
  reflexivity.
Qed.

Lemma findAxis_samples (pa pa' : PolarAlign) (ok : bool) :
  findAxis pa = Returns (ok, pa') -> points pa' = points pa /\ times pa' = times pa.
Proof.
  unfold findAxis.
  destruct (negb (length (points pa) =? 3)%nat).
  { intros H. injection H as _ <-. split; reflexivity. }
  destruct (at_index (points pa) 0); simpl; [| discriminate].
  destruct (at_index (points pa) 1); simpl; [| discriminate].
  destruct (at_index (points pa) 2); simpl; [| discriminate].
  destruct (Rlt_dec _ 0.9).
  { intros H. injection H as _ <-. split; reflexivity. }
  intros H. injection H as _ <-. split; reflexivity.
Qed.

Lemma addPoint_samples (pa pa' : PolarAlign) (image : option FITSData) (ok : bool) :
  addPoint pa image = Returns (ok, pa') ->
  (length (points pa) <= 3)%nat -> length (times pa) = length (points pa) ->
  (length (points pa') <= 3)%nat /\ length (times pa') = length (points pa').
Proof.
  unfold addPoint. destruct image as [img |]; [| discriminate].
  unfold deref, bind.
  destruct (prepareAzAlt pa (Some img) (QPointF.mk _ _)) as [coords |].
  - destruct (Nat.ltb_spec 2 (length (points pa))) as [Hfull | Hroom].
    + intros H. injection H as _ <-. auto.
    + intros H. injection H as _ <-. simpl. rewrite !length_app. simpl. lia.
  - intros H. injection H as _ <-. auto.
Qed.

Lemma setMaxPixelSearchRange_samples (pa : PolarAlign) (degrees : R) :
  points (setMaxPixelSearchRange pa degrees) = points pa
  /\ times (setMaxPixelSearchRange pa degrees) = times pa.
Proof.
  unfold setMaxPixelSearchRange.
  destruct (Rlt_dec (fabs degrees) 2); [split; reflexivity |].
  destruct (Rgt_dec (fabs degrees) 10); split; reflexivity.
Qed.

Lemma session_invariant (pa : PolarAlign) :
  session pa -> (length (points pa) <= 3)%nat /\ length (times pa) = length (points pa).
Proof.
  induction 1 as [geo instance a0 h0 m0 | pa pa' Hs [IH1 IH2] Hstep].
  - simpl. lia.
  - destruct Hstep as [| image ok pa' Hadd | ok pa' Hfind | degrees].
    + simpl. lia.
    + exact (addPoint_samples pa pa' image ok Hadd IH1 IH2).
    + destruct (findAxis_samples pa pa' ok Hfind) as [-> ->]. auto.
    + destruct (setMaxPixelSearchRange_samples pa degrees) as [-> ->]. auto.
Qed.

(** C8.  A session never holds more than three samples (and as many times
    as samples).  With three samples stored, [addPoint] returns false and
    leaves the session as it was.  With fewer than three samples, [findAxis]
    and [refreshSolution] return false. *)
Theorem session_holds_at_most_three_samples :
  (forall pa : PolarAlign,
     session pa ->
     (length (points pa) <= 3)%nat /\ length (times pa) = length (points pa))
  /\ (forall (pa : PolarAlign) (img : FITSData),
        (3 <= length (points pa))%nat ->
        addPoint pa (Some img) = Returns (false, pa))
  /\ (forall pa : PolarAlign,
        (length (points pa) < 3)%nat ->
        findAxis pa = Returns (false, pa) /\ refreshSolution pa = Returns None).
Proof.
  split; [exact session_invariant |]. split.
  - intros pa img Hfull. unfold addPoint, deref, bind.
    destruct (prepareAzAlt pa (Some img) (QPointF.mk _ _)); [| reflexivity].
    destruct (Nat.ltb_spec 2 (length (points pa))); [reflexivity | lia].
  - intros pa Hfew. split.
    + apply findAxis_without_three. lia.
    + apply refreshSolution_without_three. lia.
Qed.

End SessionFacts.

Lemma at_index_in_range {A : Type} (v : list A) (i : nat) :
  (i < length v)%nat -> exists a, nth_error v i = Some a /\ at_index v i = Returns a.
Proof.
  intros Hi. unfold at_index.
  destruct (nth_error v i) as [a |] eqn:Hnth.
  - exists a. split; reflexivity.
  - apply nth_error_None in Hnth. lia.
Qed.

Lemma at_index_past_end {A : Type} (v : list A) (i : nat) :
  (length v <= i)%nat -> at_index v i = Faults IndexOutOfRange.
Proof.
  intros Hi. unfold at_index.
  apply nth_error_None in Hi. rewrite Hi. reflexivity.
Qed.

Lemma at_index_nth {A : Type} (v : list A) (i : nat) (a : A) :
  nth_error v i = Some a -> at_index v i = Returns a.
Proof.
  intros H. unfold at_index. rewrite H. reflexivity.
Qed.

Section RefreshFacts.

Context {rot : Rotations} {sky : Sky}.

(** C9.  [processRefreshCoords] indexes [times[2]] and [points[2]] without a
    test of the size: with fewer than three samples the call is an access
    past the end, not a [return false]; with three samples the accesses are
    in range.  [findAxis] and [refreshSolution] test the size and return
    false unless it is three. *)
Theorem processRefreshCoords_reads_third_sample_unchecked
    (pa : PolarAlign) (coords : SkyPoint) (time : KStarsDateTime) :
  ((length (times pa) < 3)%nat \/ (length (points pa) < 3)%nat ->
     processRefreshCoords pa coords time = Faults IndexOutOfRange
     /\ processRefreshCoords pa coords time <> Returns None)
  /\ ((3 <= length (times pa))%nat -> (3 <= length (points pa))%nat ->
        processRefreshCoords pa coords time <> Faults IndexOutOfRange)
  /\ (length (points pa) <> 3%nat ->
        findAxis pa = Returns (false, pa) /\ refreshSolution pa = Returns None).
Proof.
  split; [| split].
  - intros Hfew.
    assert (H : processRefreshCoords pa coords time = Faults IndexOutOfRange).
    { unfold processRefreshCoords.
      destruct (Nat.lt_ge_cases (length (times pa)) 3) as [Ht | Ht].
      - rewrite (at_index_past_end (times pa) 2) by lia. reflexivity.
      - destruct (at_index_in_range (times pa) 2) as [t2 [_ ->]]; [lia |].
        simpl. destruct Hfew as [Hfew | Hfew]; [lia |].
        rewrite (at_index_past_end (points pa) 2) by lia. reflexivity. }
    split; [exact H | rewrite H; discriminate].
  - intros Ht Hp. unfold processRefreshCoords.
    destruct (at_index_in_range (times pa) 2) as [t2 [_ ->]]; [lia |].
    destruct (at_index_in_range (points pa) 2) as [p2 [_ ->]]; [lia |].
    simpl.
    match goal with
    | |- context [getRotationAngles ?f ?g] =>
        destruct (getRotationAngles_returns f g) as [found ->]
    end.
    simpl. destruct (Rgt_dec (minDist found) 0.5); [discriminate |].
    unfold latitudeDegrees, deref.
    destruct (geoLocation pa) as [g |]; simpl; [| discriminate].
    destruct (lat g); simpl; discriminate.
  - intros Hlen. split.
    + apply findAxis_without_three. exact Hlen.
    + apply refreshSolution_without_three. exact Hlen.
Qed.


End RefreshFacts.

(** ** The axis fit *)

Section AxisFacts.

Context {rot : Rotations} {sky : Sky}.

Lemma findAxis_three (pa : PolarAlign) (point0 point1 point2 : SkyPoint) :
  points pa = [point0; point1; point2] ->
  findAxis pa =
    let fitted := getAxis (cartesian point0) (cartesian point1) (cartesian point2) in
    if Rlt_dec (V3_length fitted) 0.9 then Returns (false, pa)
    else Returns (true, with_axis pa (QPointF.x (xyz2azAlt (poleward pa fitted)))
                          (QPointF.y (xyz2azAlt (poleward pa fitted)))).
Proof.
  intros Hp. unfold findAxis. rewrite Hp. reflexivity.
Qed.

Lemma three_samples (pa : PolarAlign) :
  length (points pa) = 3%nat ->
  exists point0 point1 point2, points pa = [point0; point1; point2].
Proof.
  destruct (points pa) as [| a [| b [| c [| d l]]]]; simpl; try discriminate.
  intros _. exists a, b, c. reflexivity.
Qed.

Lemma poleward_hemisphere (pa : PolarAlign) (fitted : V3.t) :
  (poleward pa fitted = fitted \/ poleward pa fitted = negated fitted)
  /\ (if northernHemisphere pa then 0 <= V3.x (poleward pa fitted)
      else V3.x (poleward pa fitted) <= 0).
Proof.
  unfold poleward, Rltb, Rgtb.
  destruct (northernHemisphere pa); simpl.
  - destruct (Rlt_dec (V3.x fitted) 0); simpl; split; auto; lra.
  - destruct (Rgt_dec (V3.x fitted) 0); simpl; split; auto; lra.
Qed.

Lemma QPointF_eta (q : QPointF.t) : QPointF.mk (QPointF.x q) (QPointF.y q) = q.
Proof. destruct q. reflexivity. Qed.

Lemma northernHemisphere_at (pa : PolarAlign) (g : GeoLocation) (latitude : R) :
  geoLocation pa = Some g -> lat g = Some latitude ->
  northernHemisphere pa = Rgtb latitude 0.
Proof.
  intros Hg Hl. unfold northernHemisphere. rewrite Hg, Hl. reflexivity.
Qed.

(** The side of the axis that [findAxis] converts, by the latitude of the
    site. *)
Lemma poleward_latitude (pa : PolarAlign) (g : GeoLocation) (latitude : R)
    (fitted : V3.t) :
  geoLocation pa = Some g -> lat g = Some latitude ->
  (poleward pa fitted = fitted \/ poleward pa fitted = negated fitted)
  /\ ((0 < latitude /\ V3.x fitted < 0) \/ (latitude <= 0 /\ V3.x fitted > 0) ->
      poleward pa fitted = negated fitted)
  /\ (0 < latitude -> 0 <= V3.x (poleward pa fitted))
  /\ (latitude <= 0 -> V3.x (poleward pa fitted) <= 0).
Proof.
  intros Hg Hl. unfold poleward.
  rewrite (northernHemisphere_at pa g latitude Hg Hl). unfold Rltb, Rgtb.
  destruct (Rgt_dec latitude 0) as [Hnorth | Hsouth]; simpl.
  - destruct (Rlt_dec (V3.x fitted) 0); simpl.
    + split; [right; reflexivity |]. split; [reflexivity |]. split; intros; lra.
    + split; [left; reflexivity |]. split; [intros [[_ H] | [H _]]; lra |].
      split; intros; lra.
  - destruct (Rgt_dec (V3.x fitted) 0); simpl.
    + split; [right; reflexivity |]. split; [reflexivity |]. split; intros; lra.
    + split; [left; reflexivity |]. split; [intros [[H _] | [_ H]]; lra |].
      split; intros; lra.
Qed.

(** Every success of [findAxis] comes from three samples that pass the
    length test, and stores the converted axis. *)
Lemma findAxis_success (pa pa' : PolarAlign) :
  findAxis pa = Returns (true, pa') ->
  exists point0 point1 point2 : SkyPoint,
    points pa = [point0; point1; point2]
    /\ 0.9 <= V3_length (getAxis (cartesian point0) (cartesian point1) (cartesian point2))
    /\ pa' = with_axis pa
               (QPointF.x (xyz2azAlt (poleward pa
                  (getAxis (cartesian point0) (cartesian point1) (cartesian point2)))))
               (QPointF.y (xyz2azAlt (poleward pa
                  (getAxis (cartesian point0) (cartesian point1) (cartesian point2))))).
Proof.
  intros Hfind.
  destruct (Nat.eq_dec (length (points pa)) 3) as [Hlen | Hlen].
  - destruct (three_samples pa Hlen) as [point0 [point1 [point2 Hp]]].
    rewrite (findAxis_three pa point0 point1 point2 Hp) in Hfind. simpl in Hfind.
    destruct (Rlt_dec _ 0.9) as [Hshort | Hlong]; [discriminate |].
    injection Hfind as <-.
    exists point0, point1, point2.
    split; [exact Hp |]. split; [lra | reflexivity].
  - rewrite (findAxis_without_three pa Hlen) in Hfind. discriminate.
Qed.

Lemma findAxis_failure_keeps_state (pa pa' : PolarAlign) :
  findAxis pa = Returns (false, pa') -> pa' = pa.
Proof.
  intros Hfind.
  destruct (Nat.eq_dec (length (points pa)) 3) as [Hlen | Hlen].
  - destruct (three_samples pa Hlen) as [point0 [point1 [point2 Hp]]].
    rewrite (findAxis_three pa point0 point1 point2 Hp) in Hfind. simpl in Hfind.
    destruct (Rlt_dec _ 0.9); [| discriminate].
    injection Hfind as <-. reflexivity.
  - rewrite (findAxis_without_three pa Hlen) in Hfind.
    injection Hfind as <-. reflexivity.
Qed.

Lemma findAxis_short_normal (pa : PolarAlign) (point0 point1 point2 : SkyPoint) :
  points pa = [point0; point1; point2] ->
  V3_length (getAxis (cartesian point0) (cartesian point1) (cartesian point2)) < 0.9 ->
  findAxis pa = Returns (false, pa).
Proof.
  intros Hp Hshort. rewrite (findAxis_three pa point0 point1 point2 Hp). simpl.
  destruct (Rlt_dec _ 0.9); [reflexivity | contradiction].
Qed.

End AxisFacts.

(** The kernel of the specification fits the zero vector to three equal
    points. *)
Lemma spec_getAxis_of_equal_points (p : V3.t) :
  SpecRotations.getAxis p p p = V3.mk 0 0 0.
Proof.
  unfold SpecRotations.getAxis.
  destruct (Req_dec_T _ 0) as [_ | Hne]; [reflexivity |].
  exfalso. apply Hne.
  unfold SpecRotations.dot, SpecRotations.cross, SpecRotations.minus. simpl. ring.
Qed.

Lemma spec_length_zero : SpecRotations.length (V3.mk 0 0 0) = 0.
Proof.
  unfold SpecRotations.length, SpecRotations.dot. simpl.
  replace (0 * 0 + 0 * 0 + 0 * 0) with 0 by ring. exact sqrt_0.
Qed.

(** C5.  For every rotation kernel, [findAxis] returns false when the
    normal fitted to the three samples is shorter than 0.9, and a [findAxis]
    that returns false leaves the session (so the stored axis) as it was.
    With the kernel of the specification, three samples at one and the same
    azimuth and altitude make [findAxis] return false. *)
Theorem findAxis_rejects_degenerate_samples :
  (forall (rot : Rotations) (sky : Sky) (pa : PolarAlign)
          (point0 point1 point2 : SkyPoint),
     points pa = [point0; point1; point2] ->
     V3_length (getAxis (cartesian point0) (cartesian point1) (cartesian point2)) < 0.9 ->
     findAxis pa = Returns (false, pa))
  /\ (forall (rot : Rotations) (sky : Sky) (pa pa' : PolarAlign),
        findAxis pa = Returns (false, pa') ->
        pa' = pa
        /\ azimuthCenter pa' = azimuthCenter pa
        /\ altitudeCenter pa' = altitudeCenter pa)
  /\ (forall (sky : Sky) (pa : PolarAlign) (point0 point1 point2 : SkyPoint),
        points pa = [point0; point1; point2] ->
        az point1 = az point0 -> alt point1 = alt point0 ->
        az point2 = az point0 -> alt point2 = alt point0 ->
        @findAxis SpecRotations.kernel sky pa = Returns (false, pa)).
Proof.
  split; [| split].
  - intros rot sky pa point0 point1 point2. apply findAxis_short_normal.
  - intros rot sky pa pa' Hfind.
    rewrite (findAxis_failure_keeps_state pa pa' Hfind). repeat split.
  - intros sky pa point0 point1 point2 Hp Haz1 Halt1 Haz2 Halt2.
    apply (@findAxis_short_normal SpecRotations.kernel sky pa point0 point1 point2 Hp).
    unfold cartesian. rewrite Haz1, Halt1, Haz2, Halt2. simpl.
    rewrite spec_getAxis_of_equal_points, spec_length_zero. lra.
Qed.

(** ** The two passes of the refresh search *)

Section TwoPasses.

Context {rot : Rotations}.

Lemma getResidual_below_start (from goal : V3.t) :
  (forall p q : V3.t, 0 <= getAngle p q <= 180) ->
  forall thetaY thetaZ : R, getResidual from thetaY thetaZ goal < 1e8.
Proof.
  intros Hangle thetaY thetaZ. unfold getResidual, fabs.
  match goal with |- Rabs (getAngle ?p ?q) < _ => specialize (Hangle p q) end.
  rewrite Rabs_pos_eq by lra. lra.
Qed.

(** C6.  [getRotationAngles] is two calls of [getBestRotation].  The first
    scans the Y and Z angles from minus to plus [pass1Range] around (0, 0) in
    steps of 1/60 degree, where [pass1Range] is 2.5 times the angle between
    the two points, kept between 1 and 10 degrees.  The second scans 4/60
    degree to either side of the pair found by the first, in steps of 5/3600
    degree, and its result is the result of [getRotationAngles].  Each pass
    returns a pair of its grid together with the residual angle of that pair,
    the angle between the goal and the point [from] rotated around Y and then
    around Z by the pair, and no pair of the grid has a smaller residual
    angle ([best_on_grid]).  The grids are those of real arithmetic, and the
    angle between two points is taken to be between 0 and 180 degrees, as the
    specification of the kernel says. *)
Theorem getRotationAngles_two_grid_passes (from goal : V3.t) :
  (forall p q : V3.t, 0 <= getAngle p q <= 180) ->
  let range1 := pass1Range from goal in
  1 <= range1 <= 10
  /\ range1 = Rmax 1 (Rmin 10 (2.5 * Rabs (getAngle from goal)))
  /\ (1 <= 2.5 * Rabs (getAngle from goal) <= 10 ->
      range1 = 2.5 * Rabs (getAngle from goal))
  /\ exists pass1 pass2 : Rotation,
       getBestRotation from goal 0 0 range1 (1 / 60) = Returns pass1
       /\ best_on_grid from goal 0 0 range1 (1 / 60) pass1
       /\ getBestRotation from goal (bestAngleZ pass1) (bestAngleY pass1)
            (4 / 60) (5 / 3600) = Returns pass2
       /\ best_on_grid from goal (bestAngleZ pass1) (bestAngleY pass1)
            (4 / 60) (5 / 3600) pass2
       /\ getRotationAngles from goal = Returns pass2.
Proof.
  intros Hangle range1.
  pose proof (pass1Range_bounds from goal) as Hrange. fold range1 in Hrange.
  assert (Hdef : range1 = Rmax 1 (Rmin 10 (2.5 * Rabs (getAngle from goal)))).
  { subst range1. unfold pass1Range, fabs.
    replace 1.0 with 1 by lra. replace 10.0 with 10 by lra. reflexivity. }
  split; [exact Hrange |]. split; [exact Hdef |]. split.
  { intros [Hlo Hhi]. rewrite Hdef.
    rewrite (Rmin_right 10 _ Hhi). apply Rmax_right. exact Hlo. }
  pose proof (getResidual_below_start from goal Hangle) as Hres.
  assert (H60 : 1 / 60 = pass1Resolution) by (unfold pass1Resolution; lra).
  assert (H3600 : 5 / 3600 = pass2Resolution) by (unfold pass2Resolution; lra).
  assert (H4 : 4 / 60 = pass2Range) by (unfold pass2Range; lra).
  destruct (getBestRotation_best from goal 0 0 range1 (1 / 60)) as [pass1 [H1 G1]];
    [lra | lra | exact Hres |].
  destruct (getBestRotation_best from goal (bestAngleZ pass1) (bestAngleY pass1)
              (4 / 60) (5 / 3600)) as [pass2 [H2 G2]];
    [lra | lra | exact Hres |].
  exists pass1, pass2.
  split; [exact H1 |]. split; [exact G1 |]. split; [exact H2 |]. split; [exact G2 |].
  unfold getRotationAngles. fold range1.
  rewrite <- H60, <- H3600, <- H4, H1. simpl. exact H2.
Qed.

End TwoPasses.

(** ** The refresh computation *)

Section ProcessRefresh.

Context {rot : Rotations} {sky : Sky}.

Lemma processRefreshCoords_three (pa : PolarAlign) (coords : SkyPoint)
    (time time2 : KStarsDateTime) (point2 : SkyPoint) :
  nth_error (times pa) 2 = Some time2 ->
  nth_error (points pa) 2 = Some point2 ->
  processRefreshCoords pa coords time =
    (found <- getRotationAngles
                (rotateAroundAxis (cartesian point2)
                   (azAlt2xyz (QPointF.mk (azimuthCenter pa) (altitudeCenter pa)))
                   (p3Angle (IZR (secsTo time2 time))))
                (observedPoint pa coords time) ;;
     refreshFrom pa found).
Proof.
  intros Ht Hp. unfold processRefreshCoords, refreshFrom, observedPoint, cartesian.
  rewrite (at_index_nth _ _ _ Ht), (at_index_nth _ _ _ Hp). simpl.
  destruct (getRotationAngles _ _) as [found | f]; simpl; [| reflexivity].
  destruct (Rgt_dec (minDist found) 0.5); [reflexivity |].
  destruct (latitudeDegrees pa) as [latitude | f]; simpl; [| reflexivity].
  unfold axisToError. simpl.
  destruct (northernHemisphere pa); simpl; [reflexivity |].
  replace 180.0 with 180 by lra. reflexivity.
Qed.

(** C3.  With a third sample stored, [processRefreshCoords] searches from
    the third sample's Cartesian point rotated around the Cartesian point of
    the stored axis by (-15.041067 * elapsedSeconds) / 3600 degrees, where
    elapsedSeconds is the number of seconds from the third sample's time to
    the new time; the search always returns, and the rest of the result is
    computed from what it returns. *)
Theorem processRefreshCoords_projects_third_sample
    (pa : PolarAlign) (coords : SkyPoint) (time time2 : KStarsDateTime)
    (point2 : SkyPoint) :
  nth_error (times pa) 2 = Some time2 ->
  nth_error (points pa) 2 = Some point2 ->
  let elapsedSeconds := IZR (secsTo time2 time) in
  let angle := (-15.041067 * elapsedSeconds) / 3600 in
  let point3 :=
    rotateAroundAxis (azAlt2xyz (QPointF.mk (az point2) (alt point2)))
      (azAlt2xyz (QPointF.mk (azimuthCenter pa) (altitudeCenter pa))) angle in
  exists found : Rotation,
    getRotationAngles point3 (observedPoint pa coords time) = Returns found
    /\ processRefreshCoords pa coords time = refreshFrom pa found.
Proof.
  intros Ht Hp elapsedSeconds angle point3.
  destruct (getRotationAngles_returns point3 (observedPoint pa coords time))
    as [found Hfound].
  exists found. split; [exact Hfound |].
  rewrite (processRefreshCoords_three pa coords time time2 point2 Ht Hp).
  replace (p3Angle (IZR (secsTo time2 time))) with angle
    by (subst angle elapsedSeconds; unfold p3Angle; lra).
  fold (cartesian point2) in point3. fold point3. rewrite Hfound. reflexivity.
Qed.

End ProcessRefresh.

(** ** The two failure tests *)

Section FailureTests.

Context {rot : Rotations} {sky : Sky}.

Lemma for_lt_invariant {St : Type} (hi inc : R) (body : R -> St -> outcome St)
    (P : St -> Prop) :
  0 < inc ->
  (forall v s s', P s -> body v s = Returns s' -> P s') ->
  forall v s s', P s -> for_lt hi inc body v s = Returns s' -> P s'.
Proof.
  intros Hinc Hbody v s s' Hs Hrun.
  rewrite (for_lt_samples hi inc body Hinc v s) in Hrun.
  exact (runBody_invariant body P Hbody _ s s' Hs Hrun).
Qed.

Lemma tryPixel_consistent (pa : PolarAlign) (image : option FITSData)
    (pixel pixel2 : QPointF.t) (start : PixelFit) (eAz eAlt : R)
    (st st' : R * PixelFit) :
  fit_consistent pa image pixel start (snd st) ->
  tryPixel pa image pixel pixel2 eAz eAlt st = Returns st' ->
  fit_consistent pa image pixel start (snd st').
Proof.
  intros Hst. unfold tryPixel.
  destruct (findCorrectedPixel pa image pixel eAz eAlt) as [[pix |] | f] eqn:Hfc;
    simpl; try discriminate.
  - destruct (Rlt_dec _ (fst st)); intros H; injection H as <-.
    + right. simpl. exact Hfc.
    + exact Hst.
  - intros H. injection H as <-. exact Hst.
Qed.

Lemma pixelErrorGrid_consistent (pa : PolarAlign) (image : option FITSData)
    (pixel pixel2 : QPointF.t) (minAz maxAz azInc minAlt maxAlt altInc : R)
    (start out fit : PixelFit) :
  0 < azInc -> 0 < altInc ->
  fit_consistent pa image pixel start out ->
  pixelErrorGrid pa image pixel pixel2 minAz maxAz azInc minAlt maxAlt altInc out
    = Returns fit ->
  fit_consistent pa image pixel start fit.
Proof.
  intros Haz Halt Hout. unfold pixelErrorGrid.
  destruct (for_lt maxAz azInc _ minAz (1e9, out)) as [st |] eqn:Hrun;
    simpl; [| discriminate].
  intros H. injection H as <-.
  revert Hrun.
  apply (for_lt_invariant maxAz azInc _
           (fun st => fit_consistent pa image pixel start (snd st)) Haz);
    [| exact Hout].
  intros eAz s s' Hs.
  apply (for_lt_invariant maxAlt altInc _
           (fun st => fit_consistent pa image pixel start (snd st)) Halt);
    [| exact Hs].
  intros eAlt t t' Ht. apply tryPixel_consistent. exact Ht.
Qed.

Lemma pixelErrorPasses_consistent (pa : PolarAlign) (image : option FITSData)
    (pixel pixel2 : QPointF.t) (fit : PixelFit) :
  pixelErrorPasses pa image pixel pixel2 = Returns fit ->
  fit_consistent pa image pixel (mkPixelFit 0 0 QPointF_default) fit.
Proof.
  unfold pixelErrorPasses.
  destruct (calculateAzAltError pa); simpl; [| discriminate].
  destruct (pixelErrorGrid pa image pixel pixel2 _ _ 0.2 _ _ 0.2 _) as [f1 |] eqn:H1;
    simpl; [| discriminate].
  destruct (pixelErrorGrid pa image pixel pixel2 _ _ 0.02 _ _ 0.02 f1) as [f2 |] eqn:H2;
    simpl; [| discriminate].
  intros H3.
  assert (C1 : fit_consistent pa image pixel (mkPixelFit 0 0 QPointF_default) f1).
  { refine (pixelErrorGrid_consistent _ _ _ _ _ _ _ _ _ _ _ _ _ _ _ _ H1);
      [lra | lra | left; reflexivity]. }
  assert (C2 : fit_consistent pa image pixel (mkPixelFit 0 0 QPointF_default) f2).
  { refine (pixelErrorGrid_consistent _ _ _ _ _ _ _ _ _ _ _ _ _ _ _ _ H2);
      [lra | lra | exact C1]. }
  refine (pixelErrorGrid_consistent _ _ _ _ _ _ _ _ _ _ _ _ _ _ _ _ H3);
    [lra | lra | exact C2].
Qed.

Lemma scan_pixel_row (pa : PolarAlign) (image : option FITSData)
    (pixel pixel2 : QPointF.t) (eAz : R) (alts : list R) :
  forall st st' : R * PixelFit,
    runBody (fun eAlt st => tryPixel pa image pixel pixel2 eAz eAlt st) alts st
      = Returns st' ->
    fst st' <= fst st
    /\ (forall eAlt pix,
          In eAlt alts ->
          findCorrectedPixel pa image pixel eAz eAlt = Returns (Some pix) ->
          fst st' <= distSq pix pixel2)
    /\ (st' = st
        \/ (taken_at pa image pixel pixel2 [eAz] alts st' /\ fst st' < fst st)).
Proof.
  induction alts as [| eAlt0 alts IH]; intros st st'; simpl.
  - intros H. injection H as <-.
    repeat split; [lra | contradiction | left; reflexivity].
  - unfold tryPixel at 1.
    destruct (findCorrectedPixel pa image pixel eAz eAlt0) as [[pix0 |] | f] eqn:Hfc;
      simpl; [| | discriminate].
    + fold (distSq pix0 pixel2).
      destruct (Rlt_dec (distSq pix0 pixel2) (fst st)) as [Hlt | Hge]; simpl;
        intros Hrun; destruct (IH _ _ Hrun) as [Hle [Hmin Hat]]; simpl in *.
      * split; [lra |]. split.
        -- intros eAlt pix [<- | Hin] Hpix.
           ++ rewrite Hfc in Hpix. injection Hpix as <-. exact Hle.
           ++ exact (Hmin eAlt pix Hin Hpix).
        -- right. destruct Hat as [-> | [[a [h [pix [Ha [Hh [Hpix Hst]]]]]] Hless]].
           ++ split; [| simpl; exact Hlt].
              exists eAz, eAlt0, pix0. simpl. auto.
           ++ split; [| lra]. exists a, h, pix. simpl. auto.
      * split; [exact Hle |]. split.
        -- intros eAlt pix [<- | Hin] Hpix.
           ++ rewrite Hfc in Hpix. injection Hpix as <-. lra.
           ++ exact (Hmin eAlt pix Hin Hpix).
        -- destruct Hat as [-> | [[a [h [pix [Ha [Hh [Hpix Hst]]]]]] Hless]];
             [left; reflexivity |].
           right. split; [| exact Hless]. exists a, h, pix. simpl. auto.
    + intros Hrun. destruct (IH _ _ Hrun) as [Hle [Hmin Hat]].
      split; [exact Hle |]. split.
      * intros eAlt pix [<- | Hin] Hpix.
        -- rewrite Hfc in Hpix. discriminate.
        -- exact (Hmin eAlt pix Hin Hpix).
      * destruct Hat as [-> | [[a [h [pix [Ha [Hh [Hpix Hst]]]]]] Hless]];
          [left; reflexivity |].
        right. split; [| exact Hless]. exists a, h, pix. simpl. auto.
Qed.

Lemma scan_pixel_grid (pa : PolarAlign) (image : option FITSData)
    (pixel pixel2 : QPointF.t) (azs alts : list R) :
  forall st st' : R * PixelFit,
    runBody
      (fun eAz st =>
         runBody (fun eAlt st => tryPixel pa image pixel pixel2 eAz eAlt st) alts st)
      azs st = Returns st' ->
    fst st' <= fst st
    /\ (forall eAz eAlt pix,
          In eAz azs -> In eAlt alts ->
          findCorrectedPixel pa image pixel eAz eAlt = Returns (Some pix) ->
          fst st' <= distSq pix pixel2)
    /\ (st' = st
        \/ (taken_at pa image pixel pixel2 azs alts st' /\ fst st' < fst st)).
Proof.
  induction azs as [| eAz0 azs IH]; intros st st'; simpl.
  - intros H. injection H as <-.
    repeat split; [lra | contradiction | left; reflexivity].
  - destruct (runBody _ alts st) as [st0 | f] eqn:Hrow; simpl; [| discriminate].
    intros Hrun.
    destruct (scan_pixel_row pa image pixel pixel2 eAz0 alts st st0 Hrow)
      as [Hle0 [Hmin0 Hat0]].
    destruct (IH st0 st' Hrun) as [Hle [Hmin Hat]].
    split; [lra |]. split.
    + intros eAz eAlt pix [<- | Hin] Hh Hpix.
      * specialize (Hmin0 eAlt pix Hh Hpix). lra.
      * exact (Hmin eAz eAlt pix Hin Hh Hpix).
    + destruct Hat as [-> | [[a [h [pix [Ha [Hh [Hpix Hst]]]]]] Hless]].
      * destruct Hat0 as [-> | [[a [h [pix [Ha [Hh [Hpix Hst]]]]]] Hless]];
          [left; reflexivity |].
        right. split; [| exact Hless].
        exists a, h, pix. simpl in Ha. destruct Ha as [<- | []].
        simpl. auto.
      * right. split; [| lra]. exists a, h, pix. simpl. auto.
Qed.

Lemma pixelErrorGrid_best (pa : PolarAlign) (image : option FITSData)
    (pixel pixel2 : QPointF.t) (minAz maxAz azInc minAlt maxAlt altInc : R)
    (out fit : PixelFit) :
  0 < azInc -> 0 < altInc ->
  pixelErrorGrid pa image pixel pixel2 minAz maxAz azInc minAlt maxAlt altInc out
    = Returns fit ->
  best_pixel_of_pass pa image pixel pixel2 minAz maxAz azInc minAlt maxAlt altInc
    out fit.
Proof.
  intros Haz Halt. unfold pixelErrorGrid.
  rewrite for_lt_samples by exact Haz.
  rewrite (runBody_ext _
             (fun eAz st =>
                runBody (fun eAlt st => tryPixel pa image pixel pixel2 eAz eAlt st)
                  (samples (count_lt maxAlt altInc minAlt) minAlt altInc) st))
    by (intros eAz st; apply for_lt_samples; exact Halt).
  set (azs := samples _ minAz azInc).
  set (alts := samples _ minAlt altInc).
  destruct (runBody _ azs (1e9, out)) as [st |] eqn:Hrun; simpl; [| discriminate].
  intros H. injection H as <-.
  destruct (scan_pixel_grid pa image pixel pixel2 azs alts _ _ Hrun)
    as [_ [Hmin Hat]].
  unfold best_pixel_of_pass.
  destruct Hat as [-> | [[a [h [pix [Ha [Hh [Hpix ->]]]]]] Hless]]; simpl in *.
  - left. split; [reflexivity |].
    intros eAz eAlt pix [HA [HH Hpix]].
    apply (in_samples_sampled_lt _ _ _ _ Haz) in HA.
    apply (in_samples_sampled_lt _ _ _ _ Halt) in HH.
    exact (Hmin eAz eAlt pix HA HH Hpix).
  - right. split.
    + split; [apply (in_samples_sampled_lt _ _ _ _ Haz); exact Ha |].
      split; [apply (in_samples_sampled_lt _ _ _ _ Halt); exact Hh | exact Hpix].
    + split; [exact Hless |].
      intros eAz eAlt pix' [HA [HH Hpix']].
      apply (in_samples_sampled_lt _ _ _ _ Haz) in HA.
      apply (in_samples_sampled_lt _ _ _ _ Halt) in HH.
      exact (Hmin eAz eAlt pix' HA HH Hpix').
Qed.

Lemma pixelErrorPasses_last_pass (pa : PolarAlign) (image : option FITSData)
    (pixel pixel2 : QPointF.t) (fit : PixelFit) :
  pixelErrorPasses pa image pixel pixel2 = Returns fit ->
  exists last : PixelFit,
    best_pixel_of_pass pa image pixel pixel2
      (fitAz last - 0.02) (fitAz last + 0.02) 0.002
      (fitAlt last - 0.02) (fitAlt last + 0.02) 0.002 last fit.
Proof.
  unfold pixelErrorPasses.
  destruct (calculateAzAltError pa); simpl; [| discriminate].
  destruct (pixelErrorGrid pa image pixel pixel2 _ _ 0.2 _ _ 0.2 _) as [f1 |];
    simpl; [| discriminate].
  destruct (pixelErrorGrid pa image pixel pixel2 _ _ 0.02 _ _ 0.02 f1) as [f2 |];
    simpl; [| discriminate].
  intros H3. exists f2.
  apply pixelErrorGrid_best; [lra | lra | exact H3].
Qed.





Lemma runBody_idle {St : Type} (body : R -> St -> outcome St) :
  (forall v s, body v s = Returns s) ->
  forall l s, runBody body l s = Returns s.
Proof.
  intros Hbody. induction l as [| v l IH]; intros s; simpl; [reflexivity |].
  rewrite Hbody. simpl. apply IH.
Qed.

Lemma pixelErrorGrid_without_candidates (pa : PolarAlign) (image : option FITSData)
    (pixel pixel2 : QPointF.t) (minAz maxAz azInc minAlt maxAlt altInc : R)
    (out : PixelFit) :
  0 < azInc -> 0 < altInc ->
  (forall eAz eAlt, findCorrectedPixel pa image pixel eAz eAlt = Returns None) ->
  pixelErrorGrid pa image pixel pixel2 minAz maxAz azInc minAlt maxAlt altInc out
    = Returns out.
Proof.
  intros Haz Halt Hnone. unfold pixelErrorGrid.
  rewrite for_lt_samples by exact Haz.
  rewrite runBody_idle; [reflexivity |].
  intros eAz st. rewrite for_lt_samples by exact Halt.
  apply runBody_idle. intros eAlt st0. unfold tryPixel. rewrite Hnone. reflexivity.
Qed.




End FailureTests.


(** ** The errors of an axis *)

Section ErrorFacts.

Context {rot : Rotations} {sky : Sky}.

Lemma calculateAzAltError_axisToError (pa : PolarAlign) (latitude : R) :
  latitudeDegrees pa = Returns latitude ->
  calculateAzAltError pa =
    Returns (axisToError (azimuthCenter pa) (altitudeCenter pa) latitude
               (northernHemisphere pa)).
Proof.
  intros Hlat. unfold calculateAzAltError, axisToError. rewrite Hlat. simpl.
  replace 180.0 with 180 by lra. reflexivity.
Qed.

Lemma refreshFrom_axisToError (pa : PolarAlign) (found : Rotation) (r : Refresh)
    (latitude : R) :
  latitudeDegrees pa = Returns latitude ->
  refreshFrom pa found = Returns (Some r) ->
  let newAxis :=
    xyz2azAlt
      (rotateAroundZ
         (rotateAroundY (azAlt2xyz (QPointF.mk (azimuthCenter pa) (altitudeCenter pa)))
            (altAdjustment r))
         (azAdjustment r)) in
  (azError r, altError r) =
    axisToError (QPointF.x newAxis) (QPointF.y newAxis) latitude (northernHemisphere pa).
Proof.
  intros Hlat. unfold refreshFrom. rewrite Hlat. simpl.
  destruct (Rgt_dec (minDist found) 0.5); [discriminate |].
  intros H. injection H as <-. reflexivity.
Qed.

Lemma axisToError_normalized (axisAz axisAlt latitude : R) (north : bool) :
  let raw := if north then axisAz else axisAz + 180 in
  let errors := axisToError axisAz axisAlt latitude north in
  snd errors = (if north then axisAlt - latitude else axisAlt + latitude)
  /\ fst errors <= 180
  /\ (exists k : nat, fst errors = raw - 360 * INR k)
  /\ (-180 < raw -> -180 < fst errors <= 180)
  /\ (raw <= 180 -> fst errors = raw).
Proof.
  intros raw errors. subst errors. unfold axisToError. fold raw. simpl.
  split; [reflexivity |]. split; [apply wrapAbove180_le |].
  split; [apply wrapAbove180_turns |]. split.
  - intros Hraw. split; [apply wrapAbove180_gt; exact Hraw | apply wrapAbove180_le].
  - apply wrapAbove180_id.
Qed.

(** C2, as the code has it.  With the latitude at hand,
    [calculateAzAltError] and the end of [processRefreshCoords] both compute
    [axisToError]: the altitude error is the axis altitude minus the latitude
    in the northern hemisphere and plus the latitude in the southern one; the
    azimuth error is the axis azimuth (north) or the axis azimuth plus 180
    (south), lowered by whole turns while it is above 180.  The result is
    never above 180, and it is in (-180, 180] whenever the azimuth it is
    computed from is above -180; an azimuth of at most 180 is returned as it
    is. *)
Theorem errors_normalized_from_above (pa : PolarAlign) (latitude : R) :
  latitudeDegrees pa = Returns latitude ->
  calculateAzAltError pa =
    Returns (axisToError (azimuthCenter pa) (altitudeCenter pa) latitude
               (northernHemisphere pa))
  /\ (forall (coords : SkyPoint) (time : KStarsDateTime) (r : Refresh),
        processRefreshCoords pa coords time = Returns (Some r) ->
        let newAxis :=
          xyz2azAlt
            (rotateAroundZ
               (rotateAroundY
                  (azAlt2xyz (QPointF.mk (azimuthCenter pa) (altitudeCenter pa)))
                  (altAdjustment r))
               (azAdjustment r)) in
        (azError r, altError r) =
          axisToError (QPointF.x newAxis) (QPointF.y newAxis) latitude
            (northernHemisphere pa))
  /\ (forall (axisAz axisAlt : R) (north : bool),
        let raw := if north then axisAz else axisAz + 180 in
        let errors := axisToError axisAz axisAlt latitude north in
        snd errors = (if north then axisAlt - latitude else axisAlt + latitude)
        /\ fst errors <= 180
        /\ (exists k : nat, fst errors = raw - 360 * INR k)
        /\ (-180 < raw -> -180 < fst errors <= 180)
        /\ (raw <= 180 -> fst errors = raw)).
Proof.
  intros Hlat. split; [exact (calculateAzAltError_axisToError pa latitude Hlat) |].
  split.
  - intros coords time r Hr.
    destruct (nth_error (times pa) 2) as [time2 |] eqn:Ht.
    + destruct (nth_error (points pa) 2) as [point2 |] eqn:Hp.
      * rewrite (processRefreshCoords_three pa coords time time2 point2 Ht Hp) in Hr.
        destruct (getRotationAngles _ _) as [found |]; simpl in Hr; [| discriminate].
        exact (refreshFrom_axisToError pa found r latitude Hlat Hr).
      * unfold processRefreshCoords in Hr.
        rewrite (at_index_nth _ _ _ Ht) in Hr. unfold at_index in Hr.
        rewrite Hp in Hr. simpl in Hr. discriminate.
    + unfold processRefreshCoords, at_index in Hr.
      rewrite Ht in Hr. simpl in Hr. discriminate.
  - intros axisAz axisAlt north. apply axisToError_normalized.
Qed.

End ErrorFacts.

(** C2, as the claim has it, fails: in the northern hemisphere an axis
    azimuth of -200 degrees comes back as an azimuth error of -200 degrees,
    which is not in (-180, 180]. *)
Lemma azimuth_error_below_minus_180 :
  let pa := FlatSky.session 45 [] [] (-200) 45 in
  @northernHemisphere FlatSky.sky pa = true
  /\ @calculateAzAltError FlatSky.sky pa = Returns (-200, 0)
  /\ ~ (-180 < -200 <= 180).
Proof.
  simpl. split; [| split].
  - unfold northernHemisphere. simpl. unfold Rgtb.
    destruct (Rgt_dec 45 0); [reflexivity | lra].
  - unfold calculateAzAltError, northernHemisphere, latitudeDegrees. simpl.
    unfold Rgtb. destruct (Rgt_dec 45 0); [| lra].
    rewrite wrapAbove180_id by lra. f_equal. f_equal. lra.
  - lra.
Qed.

(** ** The solution of [refreshSolution] *)

Section SolutionFacts.

Context {rot : Rotations} {sky : Sky}.

Lemma refreshSolution_three (pa : PolarAlign) (point2 : SkyPoint)
    (time2 : KStarsDateTime) (g : GeoLocation) (azE altE : R) :
  length (points pa) = 3%nat ->
  nth_error (points pa) 2 = Some point2 ->
  nth_error (times pa) 2 = Some time2 ->
  geoLocation pa = Some g ->
  calculateAzAltError pa = Returns (azE, altE) ->
  refreshSolution pa =
    Returns (Some
      (horizontalToJ2000 g time2
         (xyz2azAlt (rotateAroundZ (rotateAroundY (cartesian point2) altE) azE)),
       horizontalToJ2000 g time2
         (xyz2azAlt (rotateAroundY (cartesian point2) altE)))).
Proof.
  intros Hlen Hp Ht Hg Herr. unfold refreshSolution.
  rewrite Hlen, Herr, Hg, (at_index_nth _ _ _ Hp), (at_index_nth _ _ _ Ht).
  reflexivity.
Qed.

End SolutionFacts.

Lemma spec_r2d_d2r (a : R) : SpecRotations.r2d (SpecRotations.d2r a) = a.
Proof.
  unfold SpecRotations.r2d, SpecRotations.d2r. field. exact PI_neq0.
Qed.

(** In the kernel of the specification a rotation around Y by [a] degrees
    takes the point at azimuth 0 and altitude [h] to altitude [h - a],
    whatever rotation around Z follows. *)
Lemma spec_altitude_after_rotations (h a b : R) :
  -90 <= h - a <= 90 ->
  QPointF.y
    (SpecRotations.xyz2azAlt
       (SpecRotations.rotateAroundZ
          (SpecRotations.rotateAroundY (SpecRotations.azAlt2xyz (QPointF.mk 0 h)) a) b))
  = h - a.
Proof.
  intros Ha. simpl.
  assert (H0 : SpecRotations.d2r 0 = 0) by (unfold SpecRotations.d2r; lra).
  rewrite H0, cos_0.
  replace (- (cos (SpecRotations.d2r h) * 1) * sin (SpecRotations.d2r a)
           + sin (SpecRotations.d2r h) * cos (SpecRotations.d2r a))
    with (sin (SpecRotations.d2r (h - a))).
  - rewrite asin_sin.
    + apply spec_r2d_d2r.
    + unfold SpecRotations.d2r. pose proof PI_RGT_0. split; nra.
  - replace (SpecRotations.d2r (h - a))
      with (SpecRotations.d2r h - SpecRotations.d2r a)
      by (unfold SpecRotations.d2r; lra).
    rewrite sin_minus. ring.
Qed.

Lemma flat_errors_45_north (ps : list QPointF.t) (ts : list Z) :
  @calculateAzAltError FlatSky.sky (FlatSky.session 45 ps ts 0 75) = Returns (0, 30).
Proof.
  unfold calculateAzAltError, northernHemisphere, latitudeDegrees. simpl.
  unfold Rgtb. destruct (Rgt_dec 45 0); [| lra].
  rewrite wrapAbove180_id by lra. f_equal. f_equal. lra.
Qed.

(** The turns of the kernel of the specification.  A rotation by [t] degrees
    around Z lowers the azimuth of a point by [t], and a rotation by [t]
    degrees around Y lowers the altitude of a point of the meridian by
    [t]. *)
Lemma spec_rotateAroundZ_lowers_azimuth (a h t : R) :
  SpecRotations.rotateAroundZ (SpecRotations.azAlt2xyz (QPointF.mk a h)) t
  = SpecRotations.azAlt2xyz (QPointF.mk (a - t) h).
Proof.
  unfold SpecRotations.rotateAroundZ, SpecRotations.azAlt2xyz. simpl.
  replace (SpecRotations.d2r (a - t)) with (SpecRotations.d2r a - SpecRotations.d2r t)
    by (unfold SpecRotations.d2r; lra).
  rewrite cos_minus, sin_minus. f_equal; ring.
Qed.

Lemma spec_rotateAroundY_lowers_altitude (h t : R) :
  SpecRotations.rotateAroundY (SpecRotations.azAlt2xyz (QPointF.mk 0 h)) t
  = SpecRotations.azAlt2xyz (QPointF.mk 0 (h - t)).
Proof.
  unfold SpecRotations.rotateAroundY, SpecRotations.azAlt2xyz. simpl.
  replace (SpecRotations.d2r (h - t)) with (SpecRotations.d2r h - SpecRotations.d2r t)
    by (unfold SpecRotations.d2r; lra).
  replace (SpecRotations.d2r 0) with 0 by (unfold SpecRotations.d2r; lra).
  rewrite cos_minus, sin_minus, cos_0, sin_0. f_equal; ring.
Qed.

Lemma spec_rotateAroundY_zero (p : V3.t) : SpecRotations.rotateAroundY p 0 = p.
Proof.
  destruct p as [px py pz]. unfold SpecRotations.rotateAroundY. simpl.
  replace (SpecRotations.d2r 0) with 0 by (unfold SpecRotations.d2r; lra).
  rewrite cos_0, sin_0. f_equal; ring.
Qed.

(** So the rotations of [refreshSolution], applied to an axis that is off
    the pole of the northern latitude [latitude] by [altE] in altitude, or by
    [azE] in azimuth, take it to the pole. *)
Lemma spec_rotations_by_the_errors_reach_the_pole (latitude azE altE : R) :
  SpecRotations.rotateAroundZ
    (SpecRotations.rotateAroundY
       (SpecRotations.azAlt2xyz (QPointF.mk 0 (latitude + altE))) altE) 0
  = SpecRotations.azAlt2xyz (QPointF.mk 0 latitude)
  /\ SpecRotations.rotateAroundZ
       (SpecRotations.rotateAroundY
          (SpecRotations.azAlt2xyz (QPointF.mk azE latitude)) 0) azE
     = SpecRotations.azAlt2xyz (QPointF.mk 0 latitude).
Proof.
  split.
  - rewrite spec_rotateAroundY_lowers_altitude, spec_rotateAroundZ_lowers_azimuth.
    f_equal. f_equal; lra.
  - rewrite spec_rotateAroundY_zero, spec_rotateAroundZ_lowers_azimuth.
    f_equal. f_equal; lra.
Qed.

(** A rotation around Y keeps the y component, and the scalar product of
    two points it turns together. *)
Lemma spec_rotateAroundY_rigid (p q : V3.t) (t : R) :
  V3.y (SpecRotations.rotateAroundY p t) = V3.y p
  /\ SpecRotations.dot (SpecRotations.rotateAroundY p t) (SpecRotations.rotateAroundY q t)
     = SpecRotations.dot p q.
Proof.
  split; [reflexivity |].
  destruct p as [px py pz]. destruct q as [qx qy qz].
  unfold SpecRotations.rotateAroundY, SpecRotations.dot. cbn [V3.x V3.y V3.z].
  set (c := cos (SpecRotations.d2r t)). set (sn := sin (SpecRotations.d2r t)).
  assert (Hone : sn * sn + c * c = 1).
  { pose proof (sin2_cos2 (SpecRotations.d2r t)) as H. unfold Rsqr in H. exact H. }
  replace ((px * c + pz * sn) * (qx * c + qz * sn) + py * qy
           + (- px * sn + pz * c) * (- qx * sn + qz * c))
    with ((px * qx + pz * qz) * (sn * sn + c * c) + py * qy) by ring.
  rewrite Hone. ring.
Qed.

(** C1.  With three samples stored and the errors (azError, altError)
    returned by [calculateAzAltError], [refreshSolution] hands the third
    sample's Cartesian point and altError to the rotation around Y, the
    result and azError to the rotation around Z, and converts the result; the
    altitude-only solution is the same point after the rotation around Y
    alone.  This holds for every kernel.  In the kernel of the specification
    these two calls are the turns by minus the errors: the rotation around Z
    by azError lowers the azimuth of every point by azError, and the rotation
    around Y by altError is the rigid turn around the y axis that lowers the
    altitude of every point of the meridian by altError.  So for a third
    sample on the meridian at altitude h the solution is the direction at
    azimuth 0 - azError and altitude h - altError, and the altitude-only
    solution the direction at azimuth 0 and altitude h - altError. *)
Theorem refreshSolution_turns_by_minus_the_errors :
  (forall (rot : Rotations) (sky : Sky) (pa : PolarAlign)
          (point0 point1 point2 : SkyPoint) (time0 time1 time2 : KStarsDateTime)
          (g : GeoLocation) (azE altE : R),
     points pa = [point0; point1; point2] ->
     times pa = [time0; time1; time2] ->
     geoLocation pa = Some g ->
     calculateAzAltError pa = Returns (azE, altE) ->
     let point3 := azAlt2xyz (QPointF.mk (az point2) (alt point2)) in
     refreshSolution pa =
       Returns (Some
         (horizontalToJ2000 g time2
            (xyz2azAlt (rotateAroundZ (rotateAroundY point3 altE) azE)),
          horizontalToJ2000 g time2
            (xyz2azAlt (rotateAroundY point3 altE)))))
  /\ (forall a h azE : R,
        SpecRotations.rotateAroundZ (SpecRotations.azAlt2xyz (QPointF.mk a h)) azE
        = SpecRotations.azAlt2xyz (QPointF.mk (a - azE) h))
  /\ (forall h altE : R,
        SpecRotations.rotateAroundY (SpecRotations.azAlt2xyz (QPointF.mk 0 h)) altE
        = SpecRotations.azAlt2xyz (QPointF.mk 0 (h - altE)))
  /\ (forall (p q : V3.t) (altE : R),
        V3.y (SpecRotations.rotateAroundY p altE) = V3.y p
        /\ SpecRotations.dot (SpecRotations.rotateAroundY p altE)
             (SpecRotations.rotateAroundY q altE)
           = SpecRotations.dot p q)
  /\ (forall (sky : Sky) (pa : PolarAlign)
             (point0 point1 point2 : SkyPoint) (time0 time1 time2 : KStarsDateTime)
             (g : GeoLocation) (azE altE : R),
        points pa = [point0; point1; point2] ->
        times pa = [time0; time1; time2] ->
        geoLocation pa = Some g ->
        calculateAzAltError pa = Returns (azE, altE) ->
        az point2 = 0 ->
        @refreshSolution SpecRotations.kernel sky pa =
          Returns (Some
            (horizontalToJ2000 g time2
               (SpecRotations.xyz2azAlt
                  (SpecRotations.azAlt2xyz (QPointF.mk (0 - azE) (alt point2 - altE)))),
             horizontalToJ2000 g time2
               (SpecRotations.xyz2azAlt
                  (SpecRotations.azAlt2xyz (QPointF.mk 0 (alt point2 - altE))))))
        /\ (-90 <= alt point2 - altE <= 90 ->
            QPointF.y
              (SpecRotations.xyz2azAlt
                 (SpecRotations.azAlt2xyz (QPointF.mk (0 - azE) (alt point2 - altE))))
            = alt point2 - altE)).
Proof.
  split; [| split; [| split; [| split]]].
  - intros rot sky pa point0 point1 point2 time0 time1 time2 g azE altE
      Hp Ht Hg Herr point3.
    apply refreshSolution_three; try assumption.
    + rewrite Hp. reflexivity.
    + rewrite Hp. reflexivity.
    + rewrite Ht. reflexivity.
  - exact spec_rotateAroundZ_lowers_azimuth.
  - exact spec_rotateAroundY_lowers_altitude.
  - exact spec_rotateAroundY_rigid.
  - intros sky pa point0 point1 point2 time0 time1 time2 g azE altE
      Hp Ht Hg Herr Haz.
    split.
    + rewrite (@refreshSolution_three SpecRotations.kernel sky pa point2 time2 g azE altE);
        try assumption;
        [| rewrite Hp; reflexivity | rewrite Hp; reflexivity | rewrite Ht; reflexivity].
      unfold cartesian. rewrite Haz.
      change (@azAlt2xyz SpecRotations.kernel) with SpecRotations.azAlt2xyz.
      change (@rotateAroundY SpecRotations.kernel) with SpecRotations.rotateAroundY.
      change (@rotateAroundZ SpecRotations.kernel) with SpecRotations.rotateAroundZ.
      change (@xyz2azAlt SpecRotations.kernel) with SpecRotations.xyz2azAlt.
      rewrite spec_rotateAroundY_lowers_altitude, spec_rotateAroundZ_lowers_azimuth.
      reflexivity.
    + intros Hrange.
      rewrite <- (spec_rotateAroundZ_lowers_azimuth 0 (alt point2 - altE) azE).
      rewrite <- (spec_rotateAroundY_lowers_altitude (alt point2) altE).
      apply spec_altitude_after_rotations. exact Hrange.
Qed.

(** ** Facts of the kernel of the specification *)

Lemma spec_getAngle_range (p q : V3.t) : 0 <= SpecRotations.getAngle p q <= 180.
Proof.
  unfold SpecRotations.getAngle, SpecRotations.r2d.
  pose proof (acos_bound (SpecRotations.dot p q
                          / (SpecRotations.length p * SpecRotations.length q))) as [Hlo Hhi].
  set (a := acos _) in *.
  pose proof PI_RGT_0 as Hpi.
  split.
  - apply Rmult_le_pos; [lra | left; apply Rinv_0_lt_compat; exact Hpi].
  - apply (Rmult_le_reg_r PI); [exact Hpi |].
    replace (a * 180 / PI * PI) with (a * 180) by (field; lra). lra.
Qed.

(** A fitted normal is the zero vector or a unit vector. *)
Lemma spec_getAxis_unit (p1 p2 p3 : V3.t) :
  let c := SpecRotations.cross (SpecRotations.minus p2 p1) (SpecRotations.minus p3 p2) in
  SpecRotations.dot c c <> 0 ->
  SpecRotations.length (SpecRotations.getAxis p1 p2 p3) = 1.
Proof.
  intros c Hc. unfold SpecRotations.getAxis. fold c.
  destruct (Req_dec_T (SpecRotations.dot c c) 0) as [H0 | _]; [contradiction |].
  assert (Hpos : 0 <= SpecRotations.dot c c).
  { unfold SpecRotations.dot. nra. }
  assert (Hlen : sqrt (SpecRotations.dot c c) <> 0).
  { intros H. apply sqrt_eq_0 in H; [contradiction | exact Hpos]. }
  unfold SpecRotations.length.
  set (len := sqrt (SpecRotations.dot c c)) in *.
  assert (Hsq : len * len = SpecRotations.dot c c).
  { unfold len. apply sqrt_sqrt. exact Hpos. }
  replace (SpecRotations.dot _ _) with 1; [exact sqrt_1 |].
  unfold SpecRotations.dot at 1. cbn [V3.x V3.y V3.z].
  replace (V3.x c / len * (V3.x c / len) + V3.y c / len * (V3.y c / len)
           + V3.z c / len * (V3.z c / len))
    with (SpecRotations.dot c c / (len * len))
    by (unfold SpecRotations.dot; field; exact Hlen).
  rewrite Hsq. field. exact Hc.
Qed.

Lemma spec_cartesian_north : SpecRotations.azAlt2xyz (QPointF.mk 0 0) = V3.mk 1 0 0.
Proof.
  unfold SpecRotations.azAlt2xyz. simpl.
  replace (SpecRotations.d2r 0) with 0 by (unfold SpecRotations.d2r; lra).
  rewrite cos_0, sin_0. f_equal; ring.
Qed.

Lemma spec_cartesian_east : SpecRotations.azAlt2xyz (QPointF.mk 90 0) = V3.mk 0 (-1) 0.
Proof.
  unfold SpecRotations.azAlt2xyz. simpl.
  replace (SpecRotations.d2r 0) with 0 by (unfold SpecRotations.d2r; lra).
  replace (SpecRotations.d2r 90) with (PI / 2) by (unfold SpecRotations.d2r; lra).
  rewrite cos_0, sin_0, cos_PI2, sin_PI2. f_equal; ring.
Qed.

Lemma spec_cartesian_zenith : SpecRotations.azAlt2xyz (QPointF.mk 0 90) = V3.mk 0 0 1.
Proof.
  unfold SpecRotations.azAlt2xyz. simpl.
  replace (SpecRotations.d2r 0) with 0 by (unfold SpecRotations.d2r; lra).
  replace (SpecRotations.d2r 90) with (PI / 2) by (unfold SpecRotations.d2r; lra).
  rewrite cos_0, sin_0, cos_PI2, sin_PI2. f_equal; ring.
Qed.

Lemma spec_fit_of_three_corners :
  0.9 <= SpecRotations.length
           (SpecRotations.getAxis (SpecRotations.azAlt2xyz (QPointF.mk 0 0))
              (SpecRotations.azAlt2xyz (QPointF.mk 90 0))
              (SpecRotations.azAlt2xyz (QPointF.mk 0 90))).
Proof.
  rewrite spec_cartesian_north, spec_cartesian_east, spec_cartesian_zenith.
  rewrite spec_getAxis_unit; [lra |].
  unfold SpecRotations.dot, SpecRotations.cross, SpecRotations.minus. simpl. lra.
Qed.

Lemma spec_d2r_r2d (a : R) : SpecRotations.d2r (SpecRotations.r2d a) = a.
Proof.
  unfold SpecRotations.r2d, SpecRotations.d2r. field. exact PI_neq0.
Qed.

(** On unit vectors the two conversions of the kernel undo each other. *)
Lemma spec_azAlt2xyz_xyz2azAlt (v : V3.t) :
  SpecRotations.dot v v = 1 ->
  SpecRotations.azAlt2xyz (SpecRotations.xyz2azAlt v) = v.
Proof.
  destruct v as [x y z]. unfold SpecRotations.dot. cbn [V3.x V3.y V3.z]. intros Hunit.
  unfold SpecRotations.azAlt2xyz, SpecRotations.xyz2azAlt.
  cbn [V3.x V3.y V3.z QPointF.x QPointF.y].
  rewrite !spec_d2r_r2d.
  assert (Hz : -1 <= z <= 1) by (split; nra).
  assert (Hxy : 0 <= x * x + y * y) by nra.
  set (h := sqrt (x * x + y * y)).
  assert (Hh : 0 <= h) by apply sqrt_pos.
  assert (Hhh : h * h = x * x + y * y) by (apply sqrt_sqrt; exact Hxy).
  assert (Hcos : cos (asin z) = h).
  { rewrite cos_asin by exact Hz. unfold h. f_equal. unfold Rsqr. lra. }
  rewrite Hcos, (sin_asin z Hz).
  destruct (Req_dec_T h 0) as [H0 | Hne].
  - assert (x = 0 /\ y = 0) as [-> ->] by (rewrite H0 in Hhh; split; nra).
    rewrite H0, cos_0, sin_0. f_equal; ring.
  - assert (Hpos : 0 < h) by lra.
    assert (Hq : -1 <= x / h <= 1).
    { split.
      - apply (Rmult_le_reg_r h); [exact Hpos |].
        replace (x / h * h) with x by (field; exact Hne). nra.
      - apply (Rmult_le_reg_r h); [exact Hpos |].
        replace (x / h * h) with x by (field; exact Hne). nra. }
    assert (Hsin : sin (acos (x / h)) = Rabs y / h).
    { rewrite sin_acos by exact Hq.
      replace (1 - (x / h)²) with ((y / h)²).
      - rewrite sqrt_Rsqr_abs. unfold Rdiv. rewrite Rabs_mult.
        rewrite (Rabs_pos_eq (/ h)); [reflexivity |].
        left. apply Rinv_0_lt_compat. exact Hpos.
      - unfold Rsqr. field_simplify_eq; [| exact Hne]. nra. }
    destruct (Rle_dec y 0) as [Hy | Hy].
    + rewrite (cos_acos _ Hq), Hsin. rewrite Rabs_left1 by exact Hy.
      f_equal; field; exact Hne.
    + rewrite cos_minus, sin_minus, cos_2PI, sin_2PI, (cos_acos _ Hq), Hsin.
      rewrite Rabs_pos_eq by lra.
      f_equal; field; exact Hne.
Qed.

(** A fitted normal that passes the length test of [findAxis] is a unit
    vector, and so is its negation. *)
Lemma spec_long_fit_is_unit (p1 p2 p3 : V3.t) :
  0.9 <= SpecRotations.length (SpecRotations.getAxis p1 p2 p3) ->
  SpecRotations.dot (SpecRotations.getAxis p1 p2 p3) (SpecRotations.getAxis p1 p2 p3) = 1
  /\ SpecRotations.dot (negated (SpecRotations.getAxis p1 p2 p3))
       (negated (SpecRotations.getAxis p1 p2 p3)) = 1.
Proof.
  intros Hlong.
  set (c := SpecRotations.cross (SpecRotations.minus p2 p1) (SpecRotations.minus p3 p2)).
  assert (Hc : SpecRotations.dot c c <> 0).
  { intros H0. unfold SpecRotations.getAxis in Hlong. fold c in Hlong.
    destruct (Req_dec_T (SpecRotations.dot c c) 0) as [_ | Hne]; [| contradiction].
    rewrite spec_length_zero in Hlong. lra. }
  pose proof (spec_getAxis_unit p1 p2 p3 Hc) as Hone.
  unfold SpecRotations.length in Hone.
  set (v := SpecRotations.getAxis p1 p2 p3) in *.
  assert (Hpos : 0 <= SpecRotations.dot v v) by (unfold SpecRotations.dot; nra).
  assert (Hv : SpecRotations.dot v v = 1).
  { rewrite <- (sqrt_sqrt _ Hpos), Hone. ring. }
  split; [exact Hv |].
  rewrite <- Hv. unfold negated, SpecRotations.dot. simpl. ring.
Qed.

(** C7.  For a site with a latitude, whenever three samples pass the length
    test, [findAxis] succeeds and the axis it converts and stores is the
    fitted normal, negated exactly when it points to the wrong side: its
    Cartesian x component is not negative for a latitude above 0 (north) and
    not positive for a latitude of 0 or below (south).  Every success of
    [findAxis] is of this kind.  With the kernel of the specification the
    azimuth and altitude that are stored after a success are those of a
    Cartesian point on that same side. *)
Theorem findAxis_axis_in_observer_hemisphere :
  (forall (rot : Rotations) (sky : Sky) (pa : PolarAlign) (g : GeoLocation)
          (latitude : R) (point0 point1 point2 : SkyPoint),
     geoLocation pa = Some g -> lat g = Some latitude ->
     points pa = [point0; point1; point2] ->
     let fitted := getAxis (cartesian point0) (cartesian point1) (cartesian point2) in
     0.9 <= V3_length fitted ->
     exists axis : V3.t,
       findAxis pa =
         Returns (true, with_axis pa (QPointF.x (xyz2azAlt axis)) (QPointF.y (xyz2azAlt axis)))
       /\ (axis = fitted \/ axis = negated fitted)
       /\ ((0 < latitude /\ V3.x fitted < 0) \/ (latitude <= 0 /\ V3.x fitted > 0) ->
           axis = negated fitted)
       /\ (0 < latitude -> 0 <= V3.x axis)
       /\ (latitude <= 0 -> V3.x axis <= 0))
  /\ (forall (rot : Rotations) (sky : Sky) (pa pa' : PolarAlign) (g : GeoLocation)
             (latitude : R),
        geoLocation pa = Some g -> lat g = Some latitude ->
        findAxis pa = Returns (true, pa') ->
        exists (point0 point1 point2 : SkyPoint) (axis : V3.t),
          points pa = [point0; point1; point2]
          /\ 0.9 <= V3_length (getAxis (cartesian point0) (cartesian point1) (cartesian point2))
          /\ (0 < latitude -> 0 <= V3.x axis)
          /\ (latitude <= 0 -> V3.x axis <= 0)
          /\ azimuthCenter pa' = QPointF.x (xyz2azAlt axis)
          /\ altitudeCenter pa' = QPointF.y (xyz2azAlt axis)
          /\ geoLocation pa' = geoLocation pa)
  /\ (forall (sky : Sky) (pa pa' : PolarAlign) (g : GeoLocation) (latitude : R),
        geoLocation pa = Some g -> lat g = Some latitude ->
        @findAxis SpecRotations.kernel sky pa = Returns (true, pa') ->
        let stored :=
          SpecRotations.azAlt2xyz (QPointF.mk (azimuthCenter pa') (altitudeCenter pa')) in
        (0 < latitude -> 0 <= V3.x stored) /\ (latitude <= 0 -> V3.x stored <= 0)).
Proof.
  split; [| split].
  - intros rot sky pa g latitude point0 point1 point2 Hg Hl Hp fitted Hlen.
    exists (poleward pa fitted).
    rewrite (findAxis_three pa point0 point1 point2 Hp). fold fitted. simpl.
    destruct (Rlt_dec (V3_length fitted) 0.9) as [Hshort | _]; [lra |].
    split; [reflexivity |].
    exact (poleward_latitude pa g latitude fitted Hg Hl).
  - intros rot sky pa pa' g latitude Hg Hl Hfind.
    destruct (findAxis_success pa pa' Hfind) as [point0 [point1 [point2 [Hp [Hlen ->]]]]].
    exists point0, point1, point2.
    exists (poleward pa (getAxis (cartesian point0) (cartesian point1) (cartesian point2))).
    destruct (poleward_latitude pa g latitude
                (getAxis (cartesian point0) (cartesian point1) (cartesian point2)) Hg Hl)
      as [_ [_ [Hnorth Hsouth]]].
    split; [exact Hp |]. split; [exact Hlen |].
    split; [exact Hnorth |]. split; [exact Hsouth |].
    split; [reflexivity |]. split; reflexivity.
  - intros sky pa pa' g latitude Hg Hl Hfind stored.
    destruct (@findAxis_success SpecRotations.kernel sky pa pa' Hfind)
      as [point0 [point1 [point2 [Hp [Hlen Hpa']]]]].
    set (fitted := @getAxis SpecRotations.kernel (cartesian point0) (cartesian point1)
                     (cartesian point2)) in *.
    destruct (spec_long_fit_is_unit _ _ _ Hlen) as [Hunit Hunit'].
    destruct (@poleward_latitude sky pa g latitude fitted Hg Hl)
      as [Hside [_ [Hnorth Hsouth]]].
    assert (Hstored : stored = poleward pa fitted).
    { unfold stored. rewrite Hpa'. unfold with_axis.
      cbn [azimuthCenter altitudeCenter]. rewrite QPointF_eta.
      apply spec_azAlt2xyz_xyz2azAlt.
      destruct Hside as [-> | ->]; assumption. }
    rewrite Hstored. split; assumption.
Qed.

(** * Worked examples *)

Lemma refreshSolution_turns_by_minus_the_errors_example :
  @refreshSolution SpecRotations.kernel FlatSky.sky cornerSession =
    Returns (Some
      (SpecRotations.xyz2azAlt (SpecRotations.azAlt2xyz (QPointF.mk (0 - 0) (90 - 30))),
       SpecRotations.xyz2azAlt (SpecRotations.azAlt2xyz (QPointF.mk 0 (90 - 30))))).
Proof.
  destruct refreshSolution_turns_by_minus_the_errors as [_ [_ [_ [_ Hmeridian]]]].
  apply (Hmeridian FlatSky.sky cornerSession (QPointF.mk 0 0) (QPointF.mk 90 0)
           (QPointF.mk 0 90) 0%Z 600%Z 1200%Z 45 0 30).
  - reflexivity.
  - reflexivity.
  - reflexivity.
  - apply flat_errors_45_north.
  - reflexivity.
Defined.

Lemma errors_normalized_from_above_example :
  @calculateAzAltError FlatSky.sky (FlatSky.session 45 [] [] 200 75)
    = Returns (axisToError 200 75 45 true)
  /\ -180 < fst (axisToError 200 75 45 true) <= 180
  /\ snd (axisToError 200 75 45 true) = 75 - 45.
Proof.
  destruct (@errors_normalized_from_above SpecRotations.kernel FlatSky.sky
              (FlatSky.session 45 [] [] 200 75) 45 eq_refl) as [Hcode [_ Hnorm]].
  destruct (Hnorm 200 75 true) as [Halt [_ [_ [Hin _]]]].
  split; [| split].
  - rewrite Hcode. f_equal. f_equal.
    unfold northernHemisphere, Rgtb. simpl.
    destruct (Rgt_dec 45 0); [reflexivity | lra].
  - apply Hin. lra.
  - exact Halt.
Defined.

Lemma processRefreshCoords_projects_third_sample_example :
  exists found : Rotation,
    @getRotationAngles SpecRotations.kernel
      (SpecRotations.rotateAroundAxis (SpecRotations.azAlt2xyz (QPointF.mk 0 90))
         (SpecRotations.azAlt2xyz (QPointF.mk 0 75))
         ((-15.041067 * IZR (1260 - 1200)) / 3600))
      (@observedPoint SpecRotations.kernel FlatSky.sky cornerSession (QPointF.mk 1 89) 1260%Z)
      = Returns found
    /\ @processRefreshCoords SpecRotations.kernel FlatSky.sky cornerSession
         (QPointF.mk 1 89) 1260%Z
       = @refreshFrom SpecRotations.kernel FlatSky.sky cornerSession found.
Proof.
  exact (@processRefreshCoords_projects_third_sample SpecRotations.kernel FlatSky.sky
           cornerSession (QPointF.mk 1 89) 1260%Z 1200%Z (QPointF.mk 0 90)
           eq_refl eq_refl).
Defined.

Lemma findAxis_rejects_degenerate_samples_example :
  @findAxis SpecRotations.kernel FlatSky.sky stuckSession = Returns (false, stuckSession).
Proof.
  destruct findAxis_rejects_degenerate_samples as [_ [_ Hsame]].
  apply (Hsame FlatSky.sky stuckSession (QPointF.mk 10 20) (QPointF.mk 10 20)
           (QPointF.mk 10 20)); reflexivity.
Defined.

Lemma getRotationAngles_two_grid_passes_example :
  exists pass1 pass2 : Rotation,
    @getBestRotation SpecRotations.kernel (V3.mk 1 0 0) (V3.mk 0 1 0) 0 0
      (@pass1Range SpecRotations.kernel (V3.mk 1 0 0) (V3.mk 0 1 0)) (1 / 60)
      = Returns pass1
    /\ @getRotationAngles SpecRotations.kernel (V3.mk 1 0 0) (V3.mk 0 1 0)
       = Returns pass2
    /\ @best_on_grid SpecRotations.kernel (V3.mk 1 0 0) (V3.mk 0 1 0)
         (bestAngleZ pass1) (bestAngleY pass1) (4 / 60) (5 / 3600) pass2.
Proof.
  destruct (@getRotationAngles_two_grid_passes SpecRotations.kernel
              (V3.mk 1 0 0) (V3.mk 0 1 0) spec_getAngle_range)
    as [_ [_ [_ [pass1 [pass2 [H1 [_ [_ [G2 H]]]]]]]]].
  exists pass1, pass2. split; [exact H1 |]. split; [exact H | exact G2].
Defined.

Lemma findAxis_axis_in_observer_hemisphere_example :
  (exists pa' : @PolarAlign FlatSky.sky,
     @findAxis SpecRotations.kernel FlatSky.sky cornerSession = Returns (true, pa')
     /\ 0 <= V3.x (SpecRotations.azAlt2xyz
                     (QPointF.mk (azimuthCenter pa') (altitudeCenter pa'))))
  /\ (exists pa' : @PolarAlign FlatSky.sky,
        @findAxis SpecRotations.kernel FlatSky.sky
          (FlatSky.session (-30) corners [0%Z; 600%Z; 1200%Z] 0 75) = Returns (true, pa')
        /\ V3.x (SpecRotations.azAlt2xyz
                   (QPointF.mk (azimuthCenter pa') (altitudeCenter pa'))) <= 0).
Proof.
  destruct findAxis_axis_in_observer_hemisphere as [Hfit [_ Hstored]].
  split.
  - destruct (Hfit SpecRotations.kernel FlatSky.sky cornerSession 45 45
                (QPointF.mk 0 0) (QPointF.mk 90 0) (QPointF.mk 0 90)
                eq_refl eq_refl eq_refl spec_fit_of_three_corners) as [axis [Hfind _]].
    eexists. split; [exact Hfind |].
    destruct (Hstored FlatSky.sky cornerSession _ 45 45 eq_refl eq_refl Hfind)
      as [Hnorth _].
    apply Hnorth. lra.
  - destruct (Hfit SpecRotations.kernel FlatSky.sky
                (FlatSky.session (-30) corners [0%Z; 600%Z; 1200%Z] 0 75) (-30) (-30)
                (QPointF.mk 0 0) (QPointF.mk 90 0) (QPointF.mk 0 90)
                eq_refl eq_refl eq_refl spec_fit_of_three_corners) as [axis [Hfind _]].
    eexists. split; [exact Hfind |].
    destruct (Hstored FlatSky.sky
                (FlatSky.session (-30) corners [0%Z; 600%Z; 1200%Z] 0 75) _ (-30) (-30)
                eq_refl eq_refl Hfind)
      as [_ Hsouth].
    apply Hsouth. lra.
Defined.


Lemma session_holds_at_most_three_samples_example :
  @addPoint FlatSky.sky cornerSession (Some 1800%Z) = Returns (false, cornerSession)
  /\ @findAxis SpecRotations.kernel FlatSky.sky emptySession = Returns (false, emptySession)
  /\ @refreshSolution SpecRotations.kernel FlatSky.sky emptySession = Returns None.
Proof.
  destruct (@session_holds_at_most_three_samples SpecRotations.kernel FlatSky.sky)
    as [_ [Hfull Hfew]].
  split.
  - apply Hfull. simpl. lia.
  - apply Hfew. simpl. lia.
Defined.

Lemma processRefreshCoords_reads_third_sample_unchecked_example :
  @processRefreshCoords SpecRotations.kernel FlatSky.sky emptySession
    (QPointF.mk 1 89) 1260%Z = Faults IndexOutOfRange.
Proof.
  destruct (@processRefreshCoords_reads_third_sample_unchecked SpecRotations.kernel
              FlatSky.sky emptySession (QPointF.mk 1 89) 1260%Z) as [Hfew _].
  apply Hfew. left. simpl. lia.
Defined.

(** * Further properties of the code *)

(** ** Samples *)

Section SampleFacts.

Context {rot : Rotations} {sky : Sky}.

Lemma prepareAzAlt_site (pa pb : PolarAlign) (image : option FITSData) (pixel : QPointF.t) :
  geoLocation pa = geoLocation pb ->
  prepareAzAlt pa image pixel = prepareAzAlt pb image pixel.
Proof.
  intros Hgeo. unfold prepareAzAlt. rewrite Hgeo. reflexivity.
Qed.

Lemma addPoint_cases (pa : PolarAlign) (img : FITSData) :
  addPoint pa (Some img) =
    match prepareAzAlt pa (Some img) (imageCenter img) with
    | None => Returns (false, pa)
    | Some coords =>
        if (2 <? length (points pa))%nat then Returns (false, pa)
        else Returns (true, with_sample pa img coords)
    end.
Proof. reflexivity. Qed.

(** X1.  [addPoint] on an image returns true exactly when fewer than three
    samples are stored and the centre pixel of the image has a plate
    solution; the session then gets the transformed centre and the time of
    the image as its last sample and last time, and nothing else changes.
    Whenever it returns false the session is as before.  On a null image the
    call dereferences null. *)
Theorem addPoint_succeeds_exactly (pa : PolarAlign) (img : FITSData) :
  (forall pa' : PolarAlign,
     addPoint pa (Some img) = Returns (true, pa') <->
     (length (points pa) < 3)%nat
     /\ exists coords : SkyPoint,
          prepareAzAlt pa (Some img) (imageCenter img) = Some coords
          /\ pa' = mkPolarAlign (geoLocation pa) (points pa ++ [coords])
                     (times pa ++ [getDateTime img]) (azimuthCenter pa)
                     (altitudeCenter pa) (maxPixelSearchRange pa))
  /\ (forall pa' : PolarAlign, addPoint pa (Some img) = Returns (false, pa') <->
        pa' = pa
        /\ ((3 <= length (points pa))%nat
            \/ prepareAzAlt pa (Some img) (imageCenter img) = None))
  /\ (exists result, addPoint pa (Some img) = Returns result)
  /\ addPoint pa None = Faults NullDereference.
Proof.
  rewrite addPoint_cases.
  destruct (prepareAzAlt pa (Some img) (imageCenter img)) as [coords |].
  - destruct (Nat.ltb_spec 2 (length (points pa))) as [Hfull | Hroom].
    + split; [| split; [| split]].
      * intros pa'. split; [discriminate | intros [Hlen _]; lia].
      * intros pa'. split.
        -- intros H. injection H as <-. split; [reflexivity | left; lia].
        -- intros [-> _]. reflexivity.
      * eexists. reflexivity.
      * reflexivity.
    + split; [| split; [| split]].
      * intros pa'. split.
        -- intros H. injection H as <-. split; [lia |].
           exists coords. split; reflexivity.
        -- intros [_ [c [Hc ->]]]. injection Hc as <-. reflexivity.
      * intros pa'. split; [discriminate |].
        intros [_ [Hfull | Hnone]]; [lia | discriminate].
      * eexists. reflexivity.
      * reflexivity.
  - split; [| split; [| split]].
    + intros pa'. split; [discriminate |].
      intros [_ [c [Hc _]]]. discriminate.
    + intros pa'. split.
      * intros H. injection H as <-. split; [reflexivity | right; reflexivity].
      * intros [-> _]. reflexivity.
    + eexists. reflexivity.
    + reflexivity.
Qed.

(** X2.  After [reset], three calls of [addPoint] on images whose centre
    pixels have a plate solution all return true and leave the three samples
    and the three times in the order of the calls; a fourth call returns
    false and changes nothing; the site, the stored axis and the search range
    are those from before the reset. *)
Theorem three_addPoints_fill_the_session
    (pa : PolarAlign) (img1 img2 img3 img4 : FITSData) (c1 c2 c3 : SkyPoint) :
  prepareAzAlt pa (Some img1) (imageCenter img1) = Some c1 ->
  prepareAzAlt pa (Some img2) (imageCenter img2) = Some c2 ->
  prepareAzAlt pa (Some img3) (imageCenter img3) = Some c3 ->
  let full :=
    mkPolarAlign (geoLocation pa) [c1; c2; c3]
      [getDateTime img1; getDateTime img2; getDateTime img3]
      (azimuthCenter pa) (altitudeCenter pa) (maxPixelSearchRange pa) in
  exists pa1 pa2 : PolarAlign,
    addPoint (reset pa) (Some img1) = Returns (true, pa1)
    /\ addPoint pa1 (Some img2) = Returns (true, pa2)
    /\ addPoint pa2 (Some img3) = Returns (true, full)
    /\ addPoint full (Some img4) = Returns (false, full).
Proof.
  intros H1 H2 H3 full.
  exists (with_sample (reset pa) img1 c1).
  exists (with_sample (with_sample (reset pa) img1 c1) img2 c2).
  repeat split.
  - rewrite addPoint_cases.
    rewrite (prepareAzAlt_site (reset pa) pa) by reflexivity. rewrite H1. reflexivity.
  - rewrite addPoint_cases.
    rewrite (prepareAzAlt_site _ pa) by reflexivity. rewrite H2. reflexivity.
  - rewrite addPoint_cases.
    rewrite (prepareAzAlt_site _ pa) by reflexivity. rewrite H3. reflexivity.
  - rewrite addPoint_cases.
    destruct (prepareAzAlt full (Some img4) (imageCenter img4)); reflexivity.
Qed.

(** X3.  [reset] empties the samples and the times and keeps the site, the
    stored axis and the search range: the errors of the axis, the corrected
    pixels and the pixel search give what they gave before, while [findAxis]
    and [refreshSolution] return false and [processRefreshCoords] reads past
    the end until new samples are added. *)
Theorem reset_keeps_the_axis (pa : PolarAlign) (coords : SkyPoint) (time : KStarsDateTime)
    (image : option FITSData) (pixel pixel2 : QPointF.t) (altOnly : bool) :
  points (reset pa) = [] /\ times (reset pa) = []
  /\ findCorrectedPixel_altOnly (reset pa) image pixel altOnly
     = findCorrectedPixel_altOnly pa image pixel altOnly
  /\ pixelError (reset pa) image pixel pixel2 = pixelError pa image pixel pixel2
  /\ geoLocation (reset pa) = geoLocation pa
  /\ getAxisOf (reset pa) = getAxisOf pa
  /\ maxPixelSearchRange (reset pa) = maxPixelSearchRange pa
  /\ calculateAzAltError (reset pa) = calculateAzAltError pa
  /\ findAxis (reset pa) = Returns (false, reset pa)
  /\ refreshSolution (reset pa) = Returns None
  /\ processRefreshCoords (reset pa) coords time = Faults IndexOutOfRange
  /\ reset (reset pa) = reset pa.
Proof.
  repeat split.
Qed.

End SampleFacts.

(** ** The axis and its errors *)

Section MoreAxisFacts.

Context {rot : Rotations} {sky : Sky}.

Lemma findAxis_returns (pa : PolarAlign) : exists result, findAxis pa = Returns result.
Proof.
  destruct (Nat.eq_dec (length (points pa)) 3) as [Hlen | Hlen].
  - destruct (three_samples pa Hlen) as [point0 [point1 [point2 Hp]]].
    rewrite (findAxis_three pa point0 point1 point2 Hp). simpl.
    destruct (Rlt_dec _ 0.9); eexists; reflexivity.
  - rewrite (findAxis_without_three pa Hlen). eexists. reflexivity.
Qed.

Lemma with_axis_same (pa : PolarAlign) :
  pa = with_axis pa (azimuthCenter pa) (altitudeCenter pa).
Proof. destruct pa. reflexivity. Qed.

(** X4.  [findAxis] never faults, and it only ever assigns the stored axis.
    What it returns does not depend on the axis stored before: a success
    stores the same axis whatever was stored, and calling [findAxis] again
    on the session it produced gives that session again. *)
Theorem findAxis_forgets_the_old_axis (pa : PolarAlign) (azC altC : R) :
  exists (ok : bool) (pa' : PolarAlign),
    findAxis pa = Returns (ok, pa')
    /\ pa' = with_axis pa (azimuthCenter pa') (altitudeCenter pa')
    /\ findAxis pa' = Returns (ok, pa')
    /\ findAxis (with_axis pa azC altC)
       = Returns (ok, if ok then pa' else with_axis pa azC altC).
Proof.
  destruct (Nat.eq_dec (length (points pa)) 3) as [Hlen | Hlen].
  - destruct (three_samples pa Hlen) as [point0 [point1 [point2 Hp]]].
    pose proof (findAxis_three pa point0 point1 point2 Hp) as Hpa.
    pose proof (findAxis_three (with_axis pa azC altC) point0 point1 point2 Hp) as Hpb.
    simpl in Hpa, Hpb.
    change (northernHemisphere (with_axis pa azC altC)) with (northernHemisphere pa)
      in Hpb.
    destruct (Rlt_dec _ 0.9) as [Hshort | Hlong].
    + exists false, pa.
      split; [exact Hpa |]. split; [apply with_axis_same |].
      split; [exact Hpa | exact Hpb].
    + eexists true, _.
      split; [exact Hpa |]. split; [reflexivity |]. split; [| exact Hpb].
      match goal with
      | |- findAxis (with_axis pa ?a ?h) = _ =>
          rewrite (findAxis_three (with_axis pa a h) point0 point1 point2 Hp)
      end.
      simpl. destruct (Rlt_dec _ 0.9); [contradiction | reflexivity].
  - exists false, pa.
    split; [apply findAxis_without_three; exact Hlen |].
    split; [apply with_axis_same |].
    split; [apply findAxis_without_three; exact Hlen |].
    apply findAxis_without_three. exact Hlen.
Qed.

Lemma northernHemisphere_of_latitude (pa : PolarAlign) (latitude : R) :
  latitudeDegrees pa = Returns latitude ->
  northernHemisphere pa = Rgtb latitude 0.
Proof.
  unfold latitudeDegrees, northernHemisphere.
  destruct (geoLocation pa) as [g |]; simpl; [| discriminate].
  destruct (lat g); simpl; [| discriminate].
  intros H. injection H as <-. reflexivity.
Qed.

(** X5.  In both hemispheres the altitude error is the altitude of the axis
    minus the absolute value of the latitude; a site at latitude 0 counts as
    southern.  This holds for [calculateAzAltError] and for the errors that
    [processRefreshCoords] returns. *)
Theorem altitude_error_is_relative_to_pole_height (pa : PolarAlign) (latitude : R) :
  latitudeDegrees pa = Returns latitude ->
  (northernHemisphere pa = true <-> 0 < latitude)
  /\ (exists azE : R,
        calculateAzAltError pa = Returns (azE, altitudeCenter pa - Rabs latitude))
  /\ (forall (coords : SkyPoint) (time : KStarsDateTime) (r : Refresh),
        processRefreshCoords pa coords time = Returns (Some r) ->
        altError r =
          QPointF.y
            (xyz2azAlt
               (rotateAroundZ
                  (rotateAroundY
                     (azAlt2xyz (QPointF.mk (azimuthCenter pa) (altitudeCenter pa)))
                     (altAdjustment r))
                  (azAdjustment r)))
          - Rabs latitude).
Proof.
  intros Hlat.
  pose proof (northernHemisphere_of_latitude pa latitude Hlat) as Hnorth.
  assert (Hside : forall h : R,
            (if northernHemisphere pa then h - latitude else h + latitude)
            = h - Rabs latitude).
  { intros h. rewrite Hnorth. unfold Rgtb.
    destruct (Rgt_dec latitude 0) as [Hpos | Hneg].
    - rewrite Rabs_pos_eq by lra. reflexivity.
    - rewrite Rabs_left1 by lra. lra. }
  split; [| split].
  - rewrite Hnorth. unfold Rgtb.
    destruct (Rgt_dec latitude 0); split; intros; try lra; try reflexivity; discriminate.
  - rewrite (calculateAzAltError_axisToError pa latitude Hlat). unfold axisToError.
    eexists. rewrite Hside. reflexivity.
  - intros coords time r Hr.
    destruct (nth_error (times pa) 2) as [time2 |] eqn:Ht.
    + destruct (nth_error (points pa) 2) as [point2 |] eqn:Hp.
      * rewrite (processRefreshCoords_three pa coords time time2 point2 Ht Hp) in Hr.
        destruct (getRotationAngles _ _) as [found |]; simpl in Hr; [| discriminate].
        pose proof (refreshFrom_axisToError pa found r latitude Hlat Hr) as Herr.
        simpl in Herr. unfold axisToError in Herr.
        injection Herr as _ Halt. rewrite Halt. apply Hside.
      * unfold processRefreshCoords in Hr.
        rewrite (at_index_nth _ _ _ Ht) in Hr. unfold at_index in Hr.
        rewrite Hp in Hr. simpl in Hr. discriminate.
    + unfold processRefreshCoords, at_index in Hr.
      rewrite Ht in Hr. simpl in Hr. discriminate.
Qed.

(** X6.  Without a site, or with a site without latitude,
    [northernHemisphere] answers true and [findAxis] works as in the north,
    but every computation of an error dereferences null: [calculateAzAltError],
    [pixelError], the [findCorrectedPixel] that takes [altOnly], and
    [refreshSolution] once three samples are stored; [processRefreshCoords]
    can only return false or fault. *)
Theorem missing_site_is_north_but_has_no_errors
    (pa : PolarAlign) (coords : SkyPoint) (time : KStarsDateTime)
    (image : option FITSData) (pixel pixel2 : QPointF.t) (altOnly : bool) :
  geoLocation pa = None \/ (exists g, geoLocation pa = Some g /\ lat g = None) ->
  northernHemisphere pa = true
  /\ calculateAzAltError pa = Faults NullDereference
  /\ pixelError pa image pixel pixel2 = Faults NullDereference
  /\ findCorrectedPixel_altOnly pa image pixel altOnly = Faults NullDereference
  /\ (length (points pa) = 3%nat -> refreshSolution pa = Faults NullDereference)
  /\ (forall r : Refresh, processRefreshCoords pa coords time <> Returns (Some r))
  /\ (exists result, findAxis pa = Returns result).
Proof.
  intros Hsite.
  assert (Hnorth : northernHemisphere pa = true).
  { unfold northernHemisphere.
    destruct Hsite as [Hg | [g [Hg Hl]]]; rewrite Hg; [reflexivity |].
    rewrite Hl. reflexivity. }
  assert (Hlat : latitudeDegrees pa = Faults NullDereference).
  { unfold latitudeDegrees.
    destruct Hsite as [Hg | [g [Hg Hl]]]; rewrite Hg; [reflexivity |].
    simpl. rewrite Hl. reflexivity. }
  assert (Herr : calculateAzAltError pa = Faults NullDereference).
  { unfold calculateAzAltError. rewrite Hlat. reflexivity. }
  split; [exact Hnorth |]. split; [exact Herr |]. split.
  { unfold pixelError, pixelErrorPasses. rewrite Herr. reflexivity. }
  split.
  { unfold findCorrectedPixel_altOnly. rewrite Herr. reflexivity. }
  split.
  { intros Hlen. unfold refreshSolution. rewrite Hlen, Herr. reflexivity. }
  split; [| apply findAxis_returns].
  intros r Hr.
  destruct (nth_error (times pa) 2) as [time2 |] eqn:Ht.
  - destruct (nth_error (points pa) 2) as [point2 |] eqn:Hp.
    + rewrite (processRefreshCoords_three pa coords time time2 point2 Ht Hp) in Hr.
      destruct (getRotationAngles _ _) as [found |]; simpl in Hr; [| discriminate].
      unfold refreshFrom in Hr. rewrite Hlat in Hr.
      destruct (Rgt_dec (minDist found) 0.5); simpl in Hr; discriminate.
    + unfold processRefreshCoords in Hr.
      rewrite (at_index_nth _ _ _ Ht) in Hr. unfold at_index in Hr.
      rewrite Hp in Hr. simpl in Hr. discriminate.
  - unfold processRefreshCoords, at_index in Hr.
    rewrite Ht in Hr. simpl in Hr. discriminate.
Qed.

Lemma wrapAbove180_full_turn (a : R) :
  -180 < a -> wrapAbove180 (a + 360) = wrapAbove180 a.
Proof.
  intros Ha. rewrite (wrapAbove180_eq (a + 360)).
  destruct (Rgt_dec (a + 360) 180) as [_ | Hn]; [| lra].
  f_equal. lra.
Qed.

(** X7.  An axis azimuth may be given a full turn higher without any change
    of the errors, as long as the azimuth that is normalized (the axis
    azimuth in the north, the axis azimuth plus 180 in the south) is above
    -180: an azimuth reported as 350 and one reported as -10 have the same
    error.  The normalization applied twice is the normalization. *)
Theorem azimuth_error_ignores_full_turns (pa : PolarAlign) (azC altC : R) :
  -180 < (if northernHemisphere pa then azC else azC + 180) ->
  calculateAzAltError (with_axis pa (azC + 360) altC)
  = calculateAzAltError (with_axis pa azC altC)
  /\ wrapAbove180 (wrapAbove180 azC) = wrapAbove180 azC.
Proof.
  intros Hraw. split.
  - unfold calculateAzAltError.
    change (latitudeDegrees (with_axis pa (azC + 360) altC)) with (latitudeDegrees pa).
    change (latitudeDegrees (with_axis pa azC altC)) with (latitudeDegrees pa).
    destruct (latitudeDegrees pa) as [latitude |]; simpl; [| reflexivity].
    change (northernHemisphere (with_axis pa (azC + 360) altC))
      with (northernHemisphere pa).
    change (northernHemisphere (with_axis pa azC altC)) with (northernHemisphere pa).
    destruct (northernHemisphere pa).
    + rewrite wrapAbove180_full_turn by exact Hraw. reflexivity.
    + replace (azC + 360 + 180.0) with (azC + 180.0 + 360) by lra.
      rewrite wrapAbove180_full_turn by lra. reflexivity.
  - apply wrapAbove180_id. apply wrapAbove180_le.
Qed.

End MoreAxisFacts.

(** ** More on the refresh search *)

Section MoreSearchFacts.

Context {rot : Rotations} {sky : Sky}.

Lemma getResidual_nonneg (from goal : V3.t) (thetaY thetaZ : R) :
  0 <= getResidual from thetaY thetaZ goal.
Proof. unfold getResidual, fabs. apply Rabs_pos. Qed.

(** What [getBestRotation] returns, with no assumption on the kernel. *)
Lemma getBestRotation_facts (from goal : V3.t) (zStart yStart range increment : R) :
  0 < increment -> 0 <= range ->
  exists best,
    getBestRotation from goal zStart yStart range increment = Returns best
    /\ 0 <= minDist best <= 1e8
    /\ (forall thetaY thetaZ,
          sampled (yStart - range) (yStart + range) increment thetaY ->
          sampled (zStart - range) (zStart + range) increment thetaZ ->
          minDist best <= getResidual from thetaY thetaZ goal)
    /\ (best = mkRotation 1e8 0 0
        \/ (sampled (yStart - range) (yStart + range) increment (bestAngleY best)
            /\ sampled (zStart - range) (zStart + range) increment (bestAngleZ best)
            /\ minDist best = getResidual from (bestAngleY best) (bestAngleZ best) goal)).
Proof.
  intros Hinc Hrange. rewrite getBestRotation_scan by exact Hinc.
  rewrite (Rabs_pos_eq range Hrange).
  set (ys := samples _ (yStart - range) increment).
  set (zs := samples _ (zStart - range) increment).
  destruct (scan_grid from goal ys zs (mkRotation 1e8 0 0)) as [b [Hrun [Hle [Hmin Hat]]]].
  simpl in Hle.
  exists b. split; [exact Hrun |]. split; [| split].
  - split; [| exact Hle].
    destruct Hat as [-> | [ty [tz [_ [_ ->]]]]]; simpl; [lra |].
    apply getResidual_nonneg.
  - intros thetaY thetaZ HY HZ.
    apply (in_samples_sampled _ _ _ _ Hinc) in HY.
    apply (in_samples_sampled _ _ _ _ Hinc) in HZ.
    exact (Hmin thetaY thetaZ HY HZ).
  - destruct Hat as [-> | [ty [tz [Hy [Hz ->]]]]]; [left; reflexivity |].
    right. simpl.
    split; [apply in_samples_sampled in Hy; assumption |].
    split; [apply in_samples_sampled in Hz; assumption | reflexivity].
Qed.

(** X8.  With doubles read as real numbers, so that adding a positive
    increment always advances the loop counter, [getBestRotation] comes back
    exactly when its increment is positive: with an increment of zero or
    below, its loops never end, whatever the range and the points. *)
Theorem getBestRotation_needs_a_positive_increment
    (from goal : V3.t) (zStart yStart range increment : R) :
  (0 < increment ->
   exists best, getBestRotation from goal zStart yStart range increment = Returns best)
  /\ (increment <= 0 ->
      getBestRotation from goal zStart yStart range increment = Faults Diverges).
Proof.
  split.
  - apply getBestRotation_returns.
  - intros Hinc. unfold getBestRotation, fabs. rewrite for_le_eq.
    pose proof (Rabs_pos range) as Hr.
    destruct (Rle_dec (yStart - Rabs range) (yStart + Rabs range)) as [_ | Hn]; [| lra].
    destruct (Rlt_dec 0 increment) as [Hpos | _]; [lra | reflexivity].
Qed.

Lemma sampled_within (c range increment t : R) :
  0 < increment -> sampled (c - range) (c + range) increment t ->
  c - range <= t <= c + range.
Proof.
  intros Hinc [k [Ht Hle]]. split; [| exact Hle].
  rewrite Ht. pose proof (pos_INR k). nra.
Qed.

Lemma getRotationAngles_facts (from goal : V3.t) :
  exists found : Rotation,
    getRotationAngles from goal = Returns found
    /\ Rabs (bestAngleY found) <= 10 + 4 / 60
    /\ Rabs (bestAngleZ found) <= 10 + 4 / 60
    /\ 0 <= minDist found <= 1e8.
Proof.
  unfold getRotationAngles.
  pose proof (pass1Range_bounds from goal) as Hrange.
  destruct (getBestRotation_facts from goal 0 0 (pass1Range from goal) pass1Resolution
              pass1Resolution_pos) as [p1 [H1 [_ [_ Hat1]]]]; [lra |].
  rewrite H1. simpl.
  assert (Hp2 : 0 <= pass2Range) by (unfold pass2Range; lra).
  assert (Hr2 : pass2Range = 4 / 60) by (unfold pass2Range; lra).
  destruct (getBestRotation_facts from goal (bestAngleZ p1) (bestAngleY p1) pass2Range
              pass2Resolution pass2Resolution_pos Hp2) as [p2 [H2 [Hdist [_ Hat2]]]].
  exists p2. split; [exact H2 |].
  assert (B1 : -10 <= bestAngleY p1 <= 10 /\ -10 <= bestAngleZ p1 <= 10).
  { destruct Hat1 as [-> | [HY [HZ _]]]; simpl.
    - lra.
    - apply (sampled_within 0 _ _ _ pass1Resolution_pos) in HY.
      apply (sampled_within 0 _ _ _ pass1Resolution_pos) in HZ.
      lra. }
  destruct B1 as [B1y B1z].
  split; [| split; [| exact Hdist]].
  - destruct Hat2 as [-> | [HY _]]; simpl; [rewrite Rabs_R0; lra |].
    apply (sampled_within _ _ _ _ pass2Resolution_pos) in HY.
    rewrite Hr2 in HY. apply Rabs_le; lra.
  - destruct Hat2 as [-> | [_ [HZ _]]]; simpl; [rewrite Rabs_R0; lra |].
    apply (sampled_within _ _ _ _ pass2Resolution_pos) in HZ.
    rewrite Hr2 in HZ. apply Rabs_le; lra.
Qed.

(** X9.  The search of the refresh always comes back, with a residual
    between 0 and the start value 1e8 and with two angles of at most 10
    degrees and 4 arcminutes each.  So when [processRefreshCoords] returns
    true, the adjustments it reports are within that bound, and the azimuth
    error it reports is at most 180. *)
Theorem refresh_adjustments_are_bounded
    (pa : PolarAlign) (coords : SkyPoint) (time : KStarsDateTime) (from goal : V3.t) :
  (exists found : Rotation,
     getRotationAngles from goal = Returns found
     /\ Rabs (bestAngleY found) <= 10 + 4 / 60
     /\ Rabs (bestAngleZ found) <= 10 + 4 / 60
     /\ 0 <= minDist found <= 1e8)
  /\ match processRefreshCoords pa coords time with
     | Returns (Some r) =>
         Rabs (azAdjustment r) <= 10 + 4 / 60
         /\ Rabs (altAdjustment r) <= 10 + 4 / 60
         /\ azError r <= 180
     | _ => True
     end.
Proof.
  split; [apply getRotationAngles_facts |].
  destruct (processRefreshCoords pa coords time) as [[r |] |] eqn:Hr; try exact I.
  destruct (nth_error (times pa) 2) as [time2 |] eqn:Ht.
  - destruct (nth_error (points pa) 2) as [point2 |] eqn:Hp.
    + rewrite (processRefreshCoords_three pa coords time time2 point2 Ht Hp) in Hr.
      match type of Hr with
      | context [getRotationAngles ?f ?g] =>
          destruct (getRotationAngles_facts f g) as [found [Hfound [By [Bz _]]]]
      end.
      rewrite Hfound in Hr. simpl in Hr. unfold refreshFrom in Hr.
      destruct (Rgt_dec (minDist found) 0.5); [discriminate |].
      destruct (latitudeDegrees pa); simpl in Hr; [| discriminate].
      injection Hr as <-. simpl.
      split; [exact Bz |]. split; [exact By |]. apply wrapAbove180_le.
    + unfold processRefreshCoords in Hr.
      rewrite (at_index_nth _ _ _ Ht) in Hr. unfold at_index in Hr.
      rewrite Hp in Hr. simpl in Hr. discriminate.
  - unfold processRefreshCoords, at_index in Hr.
    rewrite Ht in Hr. simpl in Hr. discriminate.
Qed.

Lemma INR_60 : INR 60 = 60.
Proof. rewrite INR_IZR_INZ. reflexivity. Qed.

Lemma INR_48 : INR 48 = 48.
Proof. rewrite INR_IZR_INZ. reflexivity. Qed.

(** X10.  Where the kernel leaves a point [p] in place under rotations by 0
    degrees and measures the angle 0 from [p] to itself, the search from [p]
    to [p] ends with the residual 0.  So a refresh whose observed point is
    the projected third point never fails the residual test:
    [processRefreshCoords] does not return false on it. *)
Theorem unchanged_pointing_has_no_residual (p : V3.t) :
  rotateAroundY p 0 = p -> rotateAroundZ p 0 = p -> getAngle p p = 0 ->
  (exists found : Rotation, getRotationAngles p p = Returns found /\ minDist found = 0)
  /\ (forall (pa : PolarAlign) (coords : SkyPoint) (time time2 : KStarsDateTime)
             (point2 : SkyPoint),
        nth_error (times pa) 2 = Some time2 ->
        nth_error (points pa) 2 = Some point2 ->
        rotateAroundAxis (cartesian point2)
          (azAlt2xyz (QPointF.mk (azimuthCenter pa) (altitudeCenter pa)))
          (p3Angle (IZR (secsTo time2 time))) = p ->
        observedPoint pa coords time = p ->
        processRefreshCoords pa coords time <> Returns None).
Proof.
  intros HY HZ Hangle.
  assert (Hzero : getResidual p 0 0 p = 0).
  { unfold getResidual, fabs. rewrite HY, HZ, Hangle. apply Rabs_R0. }
  assert (Hsearch : exists found : Rotation,
            getRotationAngles p p = Returns found /\ minDist found = 0).
  { unfold getRotationAngles.
    assert (Hr1 : pass1Range p p = 1).
    { unfold pass1Range, fabs. rewrite Hangle, Rabs_R0.
      unfold Rmax, Rmin.
      destruct (Rle_dec 10.0 (2.5 * 0)); destruct (Rle_dec 1.0 _); lra. }
    rewrite Hr1.
    destruct (getBestRotation_facts p p 0 0 1 pass1Resolution pass1Resolution_pos)
      as [p1 [H1 [D1 [M1 A1]]]]; [lra |].
    rewrite H1. simpl.
    assert (S0 : sampled (0 - 1) (0 + 1) pass1Resolution 0).
    { exists 60%nat. rewrite INR_60. unfold pass1Resolution. split; lra. }
    pose proof (M1 0 0 S0 S0) as Hle1. rewrite Hzero in Hle1.
    assert (E1 : minDist p1 = 0) by lra.
    destruct A1 as [-> | [_ [_ R1]]]; [simpl in E1; lra |].
    assert (Hp2 : 0 <= pass2Range) by (unfold pass2Range; lra).
    destruct (getBestRotation_facts p p (bestAngleZ p1) (bestAngleY p1) pass2Range
                pass2Resolution pass2Resolution_pos Hp2) as [p2 [H2 [D2 [M2 _]]]].
    exists p2. split; [exact H2 |].
    assert (SC : forall c, sampled (c - pass2Range) (c + pass2Range) pass2Resolution c).
    { intros c. exists 48%nat. rewrite INR_48.
      unfold pass2Range, pass2Resolution. split; lra. }
    pose proof (M2 _ _ (SC (bestAngleY p1)) (SC (bestAngleZ p1))) as Hle2.
    rewrite <- R1, E1 in Hle2. lra. }
  split; [exact Hsearch |].
  intros pa coords time time2 point2 Ht Hp Hfrom Hgoal.
  rewrite (processRefreshCoords_three pa coords time time2 point2 Ht Hp).
  rewrite Hfrom, Hgoal.
  destruct Hsearch as [found [-> Hmin]]. simpl. unfold refreshFrom.
  destruct (Rgt_dec (minDist found) 0.5) as [Hgt | _]; [lra |].
  destruct (latitudeDegrees pa); simpl; discriminate.
Qed.

End MoreSearchFacts.

(** ** More on the pixel search *)

Section MorePixelFacts.

Context {rot : Rotations} {sky : Sky}.

Lemma setMaxPixelSearchRange_value (pa : PolarAlign) (degrees : R) :
  setMaxPixelSearchRange pa degrees = with_range pa (Rmax 2 (Rmin 10 (Rabs degrees)))
  /\ 2 <= Rmax 2 (Rmin 10 (Rabs degrees)) <= 10.
Proof.
  unfold setMaxPixelSearchRange, fabs, Rmax, Rmin.
  destruct (Rlt_dec (Rabs degrees) 2) as [Hlow | Hlow];
    [| destruct (Rgt_dec (Rabs degrees) 10) as [Hhigh | Hhigh]];
    destruct (Rle_dec 10 (Rabs degrees));
    destruct (Rle_dec 2 _); simpl; try lra;
    (split; [| lra]); f_equal; lra.
Qed.

Lemma sampled_lt_within (lo hi inc t : R) :
  0 < inc -> sampled_lt lo hi inc t -> lo <= t < hi.
Proof.
  intros Hinc [k [Ht Hlt]]. split; [| exact Hlt].
  rewrite Ht. pose proof (pos_INR k). nra.
Qed.

Lemma pixelErrorGrid_offsets (pa : PolarAlign) (image : option FITSData)
    (pixel pixel2 : QPointF.t) (minAz maxAz azInc minAlt maxAlt altInc : R)
    (out fit : PixelFit) :
  0 < azInc -> 0 < altInc ->
  pixelErrorGrid pa image pixel pixel2 minAz maxAz azInc minAlt maxAlt altInc out
    = Returns fit ->
  fit = out
  \/ (minAz <= fitAz fit < maxAz /\ minAlt <= fitAlt fit < maxAlt).
Proof.
  intros Haz Halt Hrun.
  destruct (pixelErrorGrid_best pa image pixel pixel2 _ _ _ _ _ _ out fit Haz Halt Hrun)
    as [[Hsame _] | [[HA [HH _]] _]]; [left; exact Hsame | right].
  split; [exact (sampled_lt_within _ _ _ _ Haz HA) | exact (sampled_lt_within _ _ _ _ Halt HH)].
Qed.

Lemma pixelErrorPasses_offsets (pa : PolarAlign) (image : option FITSData)
    (pixel pixel2 : QPointF.t) (fit : PixelFit) :
  pixelErrorPasses pa image pixel pixel2 = Returns fit ->
  Rabs (fitAz fit) <= Rmax 0 (maxPixelSearchRange pa) + 0.22
  /\ Rabs (fitAlt fit) <= Rmax 0 (maxPixelSearchRange pa) + 0.22.
Proof.
  unfold pixelErrorPasses.
  destruct (calculateAzAltError pa); simpl; [| discriminate].
  set (m := maxPixelSearchRange pa).
  destruct (pixelErrorGrid pa image pixel pixel2 _ _ 0.2 _ _ 0.2 _) as [f1 |] eqn:H1;
    simpl; [| discriminate].
  destruct (pixelErrorGrid pa image pixel pixel2 _ _ 0.02 _ _ 0.02 f1) as [f2 |] eqn:H2;
    simpl; [| discriminate].
  intros H3.
  pose proof (Rmax_l 0 m) as Hm0. pose proof (Rmax_r 0 m) as Hm1.
  assert (P1 : 0 < 0.2) by lra.
  assert (P2 : 0 < 0.02) by lra.
  assert (P3 : 0 < 0.002) by lra.
  assert (B1 : - Rmax 0 m <= fitAz f1 <= Rmax 0 m /\ - Rmax 0 m <= fitAlt f1 <= Rmax 0 m).
  { destruct (pixelErrorGrid_offsets _ _ _ _ _ _ _ _ _ _ _ _ P1 P1 H1)
      as [-> | [Ha Hh]]; simpl; lra. }
  assert (B2 : - Rmax 0 m - 0.2 <= fitAz f2 <= Rmax 0 m + 0.2
               /\ - Rmax 0 m - 0.2 <= fitAlt f2 <= Rmax 0 m + 0.2).
  { destruct (pixelErrorGrid_offsets _ _ _ _ _ _ _ _ _ _ _ _ P2 P2 H2)
      as [-> | [Ha Hh]]; lra. }
  destruct (pixelErrorGrid_offsets _ _ _ _ _ _ _ _ _ _ _ _ P3 P3 H3)
    as [-> | [Ha Hh]]; split; apply Rabs_le; lra.
Qed.

(** X11.  The offsets that the three-pass [pixelError] returns are never
    beyond the search range of the session (or 0, if that range is negative)
    plus 0.22 degrees; after [setMaxPixelSearchRange] they are never beyond
    10.22 degrees, whatever range was asked for. *)
Theorem pixelError_offsets_are_bounded (pa : PolarAlign) (degrees : R)
    (image : option FITSData) (pixel pixel2 : QPointF.t) :
  match pixelError pa image pixel pixel2 with
  | Returns (Some (azE, altE)) =>
      Rabs azE <= Rmax 0 (maxPixelSearchRange pa) + 0.22
      /\ Rabs altE <= Rmax 0 (maxPixelSearchRange pa) + 0.22
  | _ => True
  end
  /\ match pixelError (setMaxPixelSearchRange pa degrees) image pixel pixel2 with
     | Returns (Some (azE, altE)) => Rabs azE <= 10.22 /\ Rabs altE <= 10.22
     | _ => True
     end.
Proof.
  assert (Hgen : forall pb : PolarAlign,
            match pixelError pb image pixel pixel2 with
            | Returns (Some (azE, altE)) =>
                Rabs azE <= Rmax 0 (maxPixelSearchRange pb) + 0.22
                /\ Rabs altE <= Rmax 0 (maxPixelSearchRange pb) + 0.22
            | _ => True
            end).
  { intros pb. unfold pixelError.
    destruct (pixelErrorPasses pb image pixel pixel2) as [fit |] eqn:Hfit;
      simpl; [| exact I].
    destruct (Rgt_dec _ 10); [exact I |].
    exact (pixelErrorPasses_offsets pb image pixel pixel2 fit Hfit). }
  split; [apply Hgen |].
  specialize (Hgen (setMaxPixelSearchRange pa degrees)).
  destruct (pixelError (setMaxPixelSearchRange pa degrees) image pixel pixel2)
    as [[[azE altE] |] |]; try exact I.
  destruct (setMaxPixelSearchRange_value pa degrees) as [Hset Hm].
  rewrite Hset in Hgen. simpl in Hgen.
  rewrite Rmax_right in Hgen by lra. lra.
Qed.

(** X12.  When the pixel has no plate solution (the image is null, or its
    solution does not cover the pixel) and the latitude is at hand, no
    candidate is ever taken: [pixelError] measures the distance from the
    default pixel (0, 0) to [pixel2].  It returns false when [pixel2] is more
    than 10 pixels away from the origin, and otherwise returns true with both
    errors 0. *)
Theorem pixelError_without_plate_solution (pa : PolarAlign) (image : option FITSData)
    (pixel pixel2 : QPointF.t) (latitude : R) :
  latitudeDegrees pa = Returns latitude ->
  prepareAzAlt pa image pixel = None ->
  pixelError pa image pixel pixel2 =
    if Rgt_dec (hypot (0 - QPointF.x pixel2) (0 - QPointF.y pixel2)) 10
    then Returns None else Returns (Some (0, 0)).
Proof.
  intros Hlat Hprep.
  assert (Hnone : forall eAz eAlt,
            findCorrectedPixel pa image pixel eAz eAlt = Returns None).
  { intros eAz eAlt. unfold findCorrectedPixel. rewrite Hprep. reflexivity. }
  unfold pixelError, pixelErrorPasses, calculateAzAltError. rewrite Hlat. simpl.
  rewrite pixelErrorGrid_without_candidates by (lra || exact Hnone). simpl.
  rewrite pixelErrorGrid_without_candidates by (lra || exact Hnone). simpl.
  rewrite pixelErrorGrid_without_candidates by (lra || exact Hnone). simpl.
  reflexivity.
Qed.

(** X13.  What [pixelError] returns can be checked with
    [findCorrectedPixel]: when it returns the offsets (azError, altError),
    then [findCorrectedPixel] at these offsets gives a pixel within 10 pixels
    of [pixel2], unless no candidate was ever taken, in which case both
    offsets are 0 and it is the origin that is within 10 pixels of
    [pixel2]. *)
Theorem pixelError_inverts_findCorrectedPixel (pa : PolarAlign)
    (image : option FITSData) (pixel pixel2 : QPointF.t) :
  match pixelError pa image pixel pixel2 with
  | Returns (Some (azE, altE)) =>
      (exists pix : QPointF.t,
         findCorrectedPixel pa image pixel azE altE = Returns (Some pix)
         /\ hypot (QPointF.x pix - QPointF.x pixel2) (QPointF.y pix - QPointF.y pixel2)
            <= 10)
      \/ (azE = 0 /\ altE = 0
          /\ hypot (0 - QPointF.x pixel2) (0 - QPointF.y pixel2) <= 10)
  | _ => True
  end.
Proof.
  unfold pixelError.
  destruct (pixelErrorPasses pa image pixel pixel2) as [fit |] eqn:Hfit;
    simpl; [| exact I].
  destruct (Rgt_dec _ 10) as [_ | Hnear]; [exact I |].
  destruct (pixelErrorPasses_consistent pa image pixel pixel2 fit Hfit) as [-> | Hpix].
  - right. simpl in *. repeat split; lra.
  - left. exists (actualPixel fit). split; [exact Hpix | lra].
Qed.

End MorePixelFacts.

(** ** Sessions, once more *)

Section MoreSessionFacts.

Context {rot : Rotations} {sky : Sky}.

(** X14.  [refreshSolution] tests the number of samples only, and
    [processRefreshCoords] tests nothing, yet both read [times[2]].  In a
    session that was constructed and then only used through the member
    functions, the times are as many as the samples: with three samples and
    the latitude at hand, [refreshSolution] returns true and
    [processRefreshCoords] returns true or false, with no access past the
    end and no null dereference. *)
Theorem session_with_three_samples_is_safe (pa : PolarAlign) (latitude : R) :
  session pa ->
  length (points pa) = 3%nat ->
  latitudeDegrees pa = Returns latitude ->
  length (times pa) = 3%nat
  /\ (exists solution altOnlySolution : SkyPoint,
        refreshSolution pa = Returns (Some (solution, altOnlySolution)))
  /\ (forall (coords : SkyPoint) (time : KStarsDateTime),
        exists result : option Refresh,
          processRefreshCoords pa coords time = Returns result).
Proof.
  intros Hs Hlen Hlat.
  destruct (session_invariant pa Hs) as [_ Htimes]. rewrite Hlen in Htimes.
  split; [exact Htimes |].
  destruct (at_index_in_range (times pa) 2) as [time2 [Ht _]]; [lia |].
  destruct (at_index_in_range (points pa) 2) as [point2 [Hp _]]; [lia |].
  assert (Hg : exists g, geoLocation pa = Some g).
  { unfold latitudeDegrees in Hlat.
    destruct (geoLocation pa) as [g |]; [exists g; reflexivity | discriminate]. }
  destruct Hg as [g Hg].
  split.
  - destruct (calculateAzAltError pa) as [[azE altE] |] eqn:Herr.
    + rewrite (refreshSolution_three pa point2 time2 g azE altE Hlen Hp Ht Hg Herr).
      eexists. eexists. reflexivity.
    + rewrite (calculateAzAltError_axisToError pa latitude Hlat) in Herr. discriminate.
  - intros coords time.
    rewrite (processRefreshCoords_three pa coords time time2 point2 Ht Hp).
    match goal with
    | |- context [getRotationAngles ?f ?g] =>
        destruct (getRotationAngles_returns f g) as [found ->]
    end.
    simpl. unfold refreshFrom. rewrite Hlat.
    destruct (Rgt_dec (minDist found) 0.5); simpl; eexists; reflexivity.
Qed.

(** X15.  Of several calls of [setMaxPixelSearchRange] the last one decides,
    the sign of the argument does not matter, and to set the range to the
    value that is stored changes nothing. *)
Theorem setMaxPixelSearchRange_last_call_decides (pa : PolarAlign) (d1 d2 : R) :
  setMaxPixelSearchRange (setMaxPixelSearchRange pa d1) d2 = setMaxPixelSearchRange pa d2
  /\ setMaxPixelSearchRange pa (- d2) = setMaxPixelSearchRange pa d2
  /\ setMaxPixelSearchRange (setMaxPixelSearchRange pa d1)
       (maxPixelSearchRange (setMaxPixelSearchRange pa d1))
     = setMaxPixelSearchRange pa d1.
Proof.
  destruct (setMaxPixelSearchRange_value pa d1) as [H1 B1].
  destruct (setMaxPixelSearchRange_value pa d2) as [H2 _].
  split; [| split].
  - destruct (setMaxPixelSearchRange_value (setMaxPixelSearchRange pa d1) d2) as [H _].
    rewrite H, H2, H1. reflexivity.
  - destruct (setMaxPixelSearchRange_value pa (- d2)) as [H _].
    rewrite H, H2, Rabs_Ropp. reflexivity.
  - destruct (setMaxPixelSearchRange_value (setMaxPixelSearchRange pa d1)
                (maxPixelSearchRange (setMaxPixelSearchRange pa d1))) as [H _].
    rewrite H, H1. simpl. unfold with_range. simpl. f_equal.
    rewrite Rabs_pos_eq by lra.
    rewrite Rmin_right by lra. apply Rmax_right. lra.
Qed.

Lemma negated_negated (v : V3.t) : negated (negated v) = v.
Proof. destruct v. unfold negated. simpl. f_equal; lra. Qed.

Lemma poleward_negated (pa : PolarAlign) (v : V3.t) :
  V3.x v <> 0 -> poleward pa (negated v) = poleward pa v.
Proof.
  intros Hx. unfold poleward, Rltb, Rgtb.
  destruct (northernHemisphere pa); simpl.
  - destruct (Rlt_dec (- V3.x v) 0); destruct (Rlt_dec (V3.x v) 0); simpl;
      try lra; try reflexivity; apply negated_negated.
  - destruct (Rgt_dec (- V3.x v) 0); destruct (Rgt_dec (V3.x v) 0); simpl;
      try lra; try reflexivity; apply negated_negated.
Qed.

(** X16.  The axis that [findAxis] stores does not depend on the side to
    which the kernel's fit points.  Where the kernel fits to the samples in
    reverse order the opposite vector of the same length, and that vector is
    not at a right angle to the north (its x is not 0), [findAxis] on the
    reversed samples gives the same answer and stores the same axis. *)
Theorem findAxis_ignores_the_side_of_the_fit
    (pa : PolarAlign) (point0 point1 point2 : SkyPoint) :
  points pa = [point0; point1; point2] ->
  let fitted := getAxis (cartesian point0) (cartesian point1) (cartesian point2) in
  getAxis (cartesian point2) (cartesian point1) (cartesian point0) = negated fitted ->
  V3_length (negated fitted) = V3_length fitted ->
  V3.x fitted <> 0 ->
  let reversed := with_samples pa [point2; point1; point0] (times pa) in
  exists (ok : bool) (pa' pb' : PolarAlign),
    findAxis pa = Returns (ok, pa')
    /\ findAxis reversed = Returns (ok, pb')
    /\ getAxisOf pb' = getAxisOf pa'.
Proof.
  intros Hp fitted Hrev Hlen Hx reversed.
  rewrite (findAxis_three pa point0 point1 point2 Hp).
  rewrite (findAxis_three reversed point2 point1 point0 eq_refl).
  simpl. rewrite Hrev, Hlen. fold fitted.
  change (poleward reversed (negated fitted)) with (poleward pa (negated fitted)).
  rewrite (poleward_negated pa fitted Hx).
  destruct (Rlt_dec (V3_length fitted) 0.9).
  - exists false, pa, reversed. repeat split.
  - eexists true, _, _. repeat split.
Qed.

End MoreSessionFacts.

(** ** The corrected pixel *)

Section MoreCorrectionFacts.

Context {rot : Rotations} {sky : Sky}.

(** X17.  [findAzAlt] reads the time of the image without a test, so on a
    null image it dereferences null.  [findCorrectedPixel] calls it only
    after [prepareAzAlt] has accepted the image: on a null image it returns
    false, and with a site it returns (true or false) on every image. *)
Theorem findCorrectedPixel_guards_findAzAlt (pa : PolarAlign) (g : GeoLocation)
    (image : option FITSData) (pixel : QPointF.t)
    (azOffset altOffset azimuth altitude : R) :
  geoLocation pa = Some g ->
  findAzAlt pa None azimuth altitude = Faults NullDereference
  /\ findCorrectedPixel pa None pixel azOffset altOffset = Returns None
  /\ (exists corrected : option QPointF.t,
        findCorrectedPixel pa image pixel azOffset altOffset = Returns corrected)
  /\ (forall corrected : QPointF.t,
        findCorrectedPixel pa image pixel azOffset altOffset = Returns (Some corrected) ->
        exists (img : FITSData) (p : SkyPoint),
          image = Some img
          /\ prepareAzAlt pa image pixel = Some p
          /\ wcsToPixel img
               (horizontalToCatalogue g (getDateTime img)
                  (QPointF.x (rotateRaAxis (QPointF.mk (az p) (alt p))
                     (QPointF.mk azOffset
                        (if northernHemisphere pa then altOffset else - altOffset))))
                  (QPointF.y (rotateRaAxis (QPointF.mk (az p) (alt p))
                     (QPointF.mk azOffset
                        (if northernHemisphere pa then altOffset else - altOffset)))))
             = Some corrected).
Proof.
  intros Hg. split; [reflexivity |]. split; [reflexivity |].
  unfold findCorrectedPixel.
  destruct image as [img |]; simpl.
  - destruct (pixelToWCS img pixel) as [coords |]; simpl.
    + unfold findAzAlt. rewrite Hg. simpl. split.
      * eexists. reflexivity.
      * intros corrected H. injection H as H.
        exists img. eexists. split; [reflexivity |]. split; [reflexivity | exact H].
    + split; [eexists; reflexivity | discriminate].
  - split; [eexists; reflexivity | discriminate].
Qed.

(** X18.  The correction in altitude only is the corrected pixel for the
    azimuth offset 0 and the altitude error of the axis, which is the axis
    altitude minus the absolute latitude: it does not depend on the azimuth
    of the stored axis. *)
Theorem altOnly_correction_ignores_the_axis_azimuth (pa : PolarAlign)
    (image : option FITSData) (pixel : QPointF.t) (latitude azC : R) :
  latitudeDegrees pa = Returns latitude ->
  findCorrectedPixel_altOnly pa image pixel true
  = findCorrectedPixel pa image pixel 0 (altitudeCenter pa - Rabs latitude)
  /\ findCorrectedPixel_altOnly (with_axis pa azC (altitudeCenter pa)) image pixel true
     = findCorrectedPixel_altOnly pa image pixel true.
Proof.
  intros Hlat.
  assert (Hone : forall a : R,
            findCorrectedPixel_altOnly (with_axis pa a (altitudeCenter pa)) image pixel true
            = findCorrectedPixel pa image pixel 0 (altitudeCenter pa - Rabs latitude)).
  { intros a. unfold findCorrectedPixel_altOnly.
    rewrite (calculateAzAltError_axisToError _ latitude) by exact Hlat.
    unfold axisToError, bind.
    change (northernHemisphere (with_axis pa a (altitudeCenter pa)))
      with (northernHemisphere pa).
    change (altitudeCenter (with_axis pa a (altitudeCenter pa))) with (altitudeCenter pa).
    change (findCorrectedPixel (with_axis pa a (altitudeCenter pa)))
      with (findCorrectedPixel pa).
    replace 0.0 with 0 by lra.
    f_equal.
    rewrite (northernHemisphere_of_latitude pa latitude Hlat). unfold Rgtb.
    destruct (Rgt_dec latitude 0).
    - rewrite Rabs_pos_eq by lra. reflexivity.
    - rewrite Rabs_left1 by lra. lra. }
  split.
  - rewrite (with_axis_same pa) at 1. apply Hone.
  - rewrite Hone. rewrite (with_axis_same pa) at 2. symmetry. apply Hone.
Qed.

End MoreCorrectionFacts.

(** ** The sky map *)

(** X19.  After [slotClockSlewing] the member [clockSlewing] tells whether
    the absolute time scale of the clock is above the slew time scale.  The
    clock and the main window are called only when the member changes, the
    clock first and with the new value as its manual mode.  A second call
    with the same scale does nothing, and [isSlewing] then reports the map as
    slewing whenever the scale is above the threshold and the clock is
    active. *)
Theorem slotClockSlewing_tracks_the_time_scale
    (scale slewTimeScale : R) (kstars clockSlewing slewing clockActive : bool) :
  let after := fst (slotClockSlewing scale slewTimeScale kstars clockSlewing) in
  let calls := snd (slotClockSlewing scale slewTimeScale kstars clockSlewing) in
  (after = true <-> Rabs scale > slewTimeScale)
  /\ (calls = [] <-> after = clockSlewing)
  /\ (after <> clockSlewing ->
      calls = SetManualMode after :: (if kstars then [UpdateTime false] else []))
  /\ slotClockSlewing scale slewTimeScale kstars after = (after, [])
  /\ isSlewing slewing after clockActive
     = slewing || (Rgtb (Rabs scale) slewTimeScale && clockActive).
Proof.
  unfold slotClockSlewing, isSlewing, fabs, Rgtb.
  destruct (Rgt_dec (Rabs scale) slewTimeScale) as [Hgt | Hle];
    destruct clockSlewing; simpl;
    (destruct (Rgt_dec (Rabs scale) slewTimeScale); [| try contradiction];
     try contradiction; simpl);
    repeat split; try tauto; try discriminate; try congruence; intros; try lra;
    try (exfalso; congruence).
Qed.

(** X20.  For a FOV symbol with sizes that are not negative, the field of
    view that [slotEndRulerMode] takes for star hopping is the smaller size
    when sizeY is not 0, and sizeX when sizeY is 0.  It is positive, as the
    function asserts it to be, exactly when sizeX is positive: a symbol of
    width 0 and positive height gives 0. *)
Theorem starHopFov_is_the_smaller_side (sizeX sizeY : R) :
  0 <= sizeX -> 0 <= sizeY ->
  (0 < sizeY -> starHopFov sizeX sizeY = Rmin sizeX sizeY)
  /\ (sizeY = 0 -> starHopFov sizeX sizeY = sizeX)
  /\ (0 < starHopFov sizeX sizeY <-> 0 < sizeX).
Proof.
  intros HX HY. unfold starHopFov, Rgeb, Rneqb, Rmin.
  destruct (Rge_dec sizeX sizeY); destruct (Req_dec_T sizeY 0);
    destruct (Rle_dec sizeX sizeY); simpl; repeat split; intros; lra.
Qed.

(** ** The kernel of the specification, once more *)

Lemma spec_rotateAroundZ_zero (p : V3.t) : SpecRotations.rotateAroundZ p 0 = p.
Proof.
  destruct p as [px py pz]. unfold SpecRotations.rotateAroundZ. simpl.
  replace (SpecRotations.d2r 0) with 0 by (unfold SpecRotations.d2r; lra).
  rewrite cos_0, sin_0. f_equal; ring.
Qed.

Lemma spec_getAngle_zenith : SpecRotations.getAngle (V3.mk 0 0 1) (V3.mk 0 0 1) = 0.
Proof.
  unfold SpecRotations.getAngle, SpecRotations.length, SpecRotations.dot. simpl.
  replace (0 * 0 + 0 * 0 + 1 * 1) with 1 by ring.
  rewrite sqrt_1.
  replace (1 / (1 * 1)) with 1 by field.
  rewrite acos_1. unfold SpecRotations.r2d. field.
  pose proof PI_RGT_0. lra.
Qed.

(** The fit to the samples in reverse order is the opposite vector. *)
Lemma spec_getAxis_reversed (p1 p2 p3 : V3.t) :
  SpecRotations.getAxis p3 p2 p1 = negated (SpecRotations.getAxis p1 p2 p3).
Proof.
  unfold SpecRotations.getAxis.
  set (c := SpecRotations.cross (SpecRotations.minus p2 p1) (SpecRotations.minus p3 p2)).
  assert (Hc : SpecRotations.cross (SpecRotations.minus p2 p3) (SpecRotations.minus p1 p2)
               = negated c).
  { unfold c, negated, SpecRotations.cross, SpecRotations.minus. simpl. f_equal; ring. }
  rewrite Hc.
  assert (Hd : SpecRotations.dot (negated c) (negated c) = SpecRotations.dot c c).
  { unfold negated, SpecRotations.dot. simpl. ring. }
  rewrite Hd.
  destruct (Req_dec_T (SpecRotations.dot c c) 0).
  - unfold negated. simpl. f_equal; ring.
  - unfold negated. simpl. f_equal; unfold Rdiv; ring.
Qed.

Lemma spec_length_negated (v : V3.t) :
  SpecRotations.length (negated v) = SpecRotations.length v.
Proof.
  unfold SpecRotations.length. f_equal.
  unfold negated, SpecRotations.dot. simpl. ring.
Qed.

(** The fit leans to the north or to the south whenever the cross product
    of the chords does. *)
Lemma spec_getAxis_leans (p1 p2 p3 : V3.t) :
  V3.x (SpecRotations.cross (SpecRotations.minus p2 p1) (SpecRotations.minus p3 p2)) <> 0 ->
  V3.x (SpecRotations.getAxis p1 p2 p3) <> 0.
Proof.
  unfold SpecRotations.getAxis.
  set (c := SpecRotations.cross (SpecRotations.minus p2 p1) (SpecRotations.minus p3 p2)).
  intros Hx.
  assert (Hpos : 0 < SpecRotations.dot c c).
  { unfold SpecRotations.dot. nra. }
  destruct (Req_dec_T (SpecRotations.dot c c) 0) as [H0 | _]; [lra |].
  cbn [V3.x]. pose proof (sqrt_lt_R0 _ Hpos) as Hlen.
  intros H. apply Hx.
  apply (Rmult_eq_reg_r (/ sqrt (SpecRotations.dot c c))).
  - unfold Rdiv in H. rewrite H. ring.
  - apply Rinv_neq_0_compat. lra.
Qed.

(** * Worked examples of the further properties *)

Lemma three_addPoints_fill_the_session_example :
  exists pa1 pa2 : @PolarAlign FlatSky.sky,
    addPoint (reset emptySession) (Some 0%Z) = Returns (true, pa1)
    /\ addPoint pa1 (Some 600%Z) = Returns (true, pa2)
    /\ addPoint pa2 (Some 1200%Z)
       = Returns (true,
                  FlatSky.session 45
                    [QPointF.mk 320 240; QPointF.mk 320 240; QPointF.mk 320 240]
                    [0%Z; 600%Z; 1200%Z] 0 75)
    /\ addPoint
         (FlatSky.session 45
            [QPointF.mk 320 240; QPointF.mk 320 240; QPointF.mk 320 240]
            [0%Z; 600%Z; 1200%Z] 0 75) (Some 1800%Z)
       = Returns (false,
                  FlatSky.session 45
                    [QPointF.mk 320 240; QPointF.mk 320 240; QPointF.mk 320 240]
                    [0%Z; 600%Z; 1200%Z] 0 75).
Proof.
  exact (@three_addPoints_fill_the_session FlatSky.sky emptySession
           0%Z 600%Z 1200%Z 1800%Z
           (QPointF.mk 320 240) (QPointF.mk 320 240) (QPointF.mk 320 240)
           eq_refl eq_refl eq_refl).
Defined.

Lemma altitude_error_is_relative_to_pole_height_example :
  exists azE : R,
    @calculateAzAltError FlatSky.sky southSession = Returns (azE, 31 - Rabs (-30)).
Proof.
  destruct (@altitude_error_is_relative_to_pole_height SpecRotations.kernel FlatSky.sky
              southSession (-30) eq_refl) as [_ [Herr _]].
  exact Herr.
Defined.

Lemma missing_site_is_north_but_has_no_errors_example :
  @northernHemisphere FlatSky.sky sitelessSession = true
  /\ @calculateAzAltError FlatSky.sky sitelessSession = Faults NullDereference
  /\ @refreshSolution SpecRotations.kernel FlatSky.sky sitelessSession
     = Faults NullDereference.
Proof.
  destruct (@missing_site_is_north_but_has_no_errors SpecRotations.kernel FlatSky.sky
              sitelessSession (QPointF.mk 1 89) 1260%Z None (QPointF.mk 0 0)
              (QPointF.mk 0 0) false (or_introl eq_refl))
    as [Hnorth [Herr [_ [_ [Hsol _]]]]].
  split; [exact Hnorth |]. split; [exact Herr |]. apply Hsol. reflexivity.
Defined.

Lemma azimuth_error_ignores_full_turns_example :
  @calculateAzAltError FlatSky.sky (with_axis emptySession (-10 + 360) 75)
  = @calculateAzAltError FlatSky.sky (with_axis emptySession (-10) 75).
Proof.
  apply (@azimuth_error_ignores_full_turns FlatSky.sky emptySession (-10) 75).
  unfold northernHemisphere, Rgtb. simpl.
  destruct (Rgt_dec 45 0); lra.
Defined.

Lemma getBestRotation_needs_a_positive_increment_example :
  (exists best : Rotation,
     @getBestRotation SpecRotations.kernel (V3.mk 1 0 0) (V3.mk 0 1 0) 0 0 1 (1 / 60)
     = Returns best)
  /\ @getBestRotation SpecRotations.kernel (V3.mk 1 0 0) (V3.mk 0 1 0) 0 0 1 0
     = Faults Diverges.
Proof.
  split.
  - apply (proj1 (@getBestRotation_needs_a_positive_increment SpecRotations.kernel
                    (V3.mk 1 0 0) (V3.mk 0 1 0) 0 0 1 (1 / 60))). lra.
  - apply (proj2 (@getBestRotation_needs_a_positive_increment SpecRotations.kernel
                    (V3.mk 1 0 0) (V3.mk 0 1 0) 0 0 1 0)). lra.
Defined.

Lemma unchanged_pointing_has_no_residual_example :
  exists found : Rotation,
    @getRotationAngles SpecRotations.kernel (V3.mk 0 0 1) (V3.mk 0 0 1) = Returns found
    /\ minDist found = 0.
Proof.
  exact (proj1 (@unchanged_pointing_has_no_residual SpecRotations.kernel FlatSky.sky
                  (V3.mk 0 0 1) (spec_rotateAroundY_zero _) (spec_rotateAroundZ_zero _)
                  spec_getAngle_zenith)).
Defined.

Lemma pixelError_without_plate_solution_example :
  @pixelError SpecRotations.kernel FlatSky.sky emptySession None
    (QPointF.mk 320 240) (QPointF.mk 3 4)
  = if Rgt_dec (hypot (0 - 3) (0 - 4)) 10 then Returns None else Returns (Some (0, 0)).
Proof.
  exact (@pixelError_without_plate_solution SpecRotations.kernel FlatSky.sky
           emptySession None (QPointF.mk 320 240) (QPointF.mk 3 4) 45 eq_refl eq_refl).
Defined.

(** A session as the align module runs it: constructed for a site at
    latitude 45, then three images added. *)
Lemma three_image_session :
  @session SpecRotations.kernel FlatSky.sky
    (FlatSky.session 45
       [QPointF.mk 320 240; QPointF.mk 320 240; QPointF.mk 320 240]
       [0%Z; 600%Z; 1200%Z] 0 75).
Proof.
  eapply session_step.
  - eapply session_step.
    + eapply session_step.
      * exact (@session_constructed SpecRotations.kernel FlatSky.sky (Some 45) None 0 75 2).
      * apply (@step_addPoint SpecRotations.kernel FlatSky.sky _ (Some 0%Z) true). reflexivity.
    + apply (@step_addPoint SpecRotations.kernel FlatSky.sky _ (Some 600%Z) true). reflexivity.
  - apply (@step_addPoint SpecRotations.kernel FlatSky.sky _ (Some 1200%Z) true). reflexivity.
Qed.

Lemma session_with_three_samples_is_safe_example :
  exists solution altOnlySolution : QPointF.t,
    @refreshSolution SpecRotations.kernel FlatSky.sky
      (FlatSky.session 45
         [QPointF.mk 320 240; QPointF.mk 320 240; QPointF.mk 320 240]
         [0%Z; 600%Z; 1200%Z] 0 75)
    = Returns (Some (solution, altOnlySolution)).
Proof.
  destruct (@session_with_three_samples_is_safe SpecRotations.kernel FlatSky.sky
              (FlatSky.session 45
                 [QPointF.mk 320 240; QPointF.mk 320 240; QPointF.mk 320 240]
                 [0%Z; 600%Z; 1200%Z] 0 75)
              45 three_image_session eq_refl eq_refl) as [_ [Hsol _]].
  exact Hsol.
Defined.

Lemma findAxis_ignores_the_side_of_the_fit_example :
  exists (ok : bool) (pa' pb' : @PolarAlign FlatSky.sky),
    @findAxis SpecRotations.kernel FlatSky.sky cornerSession = Returns (ok, pa')
    /\ @findAxis SpecRotations.kernel FlatSky.sky
         (with_samples cornerSession [QPointF.mk 0 90; QPointF.mk 90 0; QPointF.mk 0 0]
            (times cornerSession))
       = Returns (ok, pb')
    /\ getAxisOf pb' = getAxisOf pa'.
Proof.
  apply (@findAxis_ignores_the_side_of_the_fit SpecRotations.kernel FlatSky.sky
           cornerSession (QPointF.mk 0 0) (QPointF.mk 90 0) (QPointF.mk 0 90) eq_refl).
  - apply spec_getAxis_reversed.
  - apply spec_length_negated.
  - change (V3.x (SpecRotations.getAxis (SpecRotations.azAlt2xyz (QPointF.mk 0 0))
                    (SpecRotations.azAlt2xyz (QPointF.mk 90 0))
                    (SpecRotations.azAlt2xyz (QPointF.mk 0 90))) <> 0).
    rewrite spec_cartesian_north, spec_cartesian_east, spec_cartesian_zenith.
    apply spec_getAxis_leans.
    unfold SpecRotations.cross, SpecRotations.minus. simpl. lra.
Defined.

Lemma findCorrectedPixel_guards_findAzAlt_example :
  @findAzAlt FlatSky.sky emptySession None 0 75 = Faults NullDereference
  /\ @findCorrectedPixel SpecRotations.kernel FlatSky.sky emptySession None
       (QPointF.mk 320 240) 0 30 = Returns None.
Proof.
  destruct (@findCorrectedPixel_guards_findAzAlt SpecRotations.kernel FlatSky.sky
              emptySession 45 None (QPointF.mk 320 240) 0 30 0 75 eq_refl)
    as [Hfind [Hnull _]].
  split; [exact Hfind | exact Hnull].
Defined.

Lemma altOnly_correction_ignores_the_axis_azimuth_example :
  @findCorrectedPixel_altOnly SpecRotations.kernel FlatSky.sky
    (with_axis southSession 20 31) (Some 0%Z) (QPointF.mk 320 240) true
  = @findCorrectedPixel_altOnly SpecRotations.kernel FlatSky.sky
      southSession (Some 0%Z) (QPointF.mk 320 240) true.
Proof.
  exact (proj2 (@altOnly_correction_ignores_the_axis_azimuth SpecRotations.kernel
                  FlatSky.sky southSession (Some 0%Z) (QPointF.mk 320 240) (-30) 20
                  eq_refl)).
Defined.

Lemma starHopFov_is_the_smaller_side_example :
  starHopFov 2 1 = Rmin 2 1 /\ (0 < starHopFov 0 1 <-> 0 < 0).
Proof.
  split.
  - apply (starHopFov_is_the_smaller_side 2 1); lra.
  - apply (starHopFov_is_the_smaller_side 0 1); lra.
Defined.
